(** * lit-share: the shared-value registry of [src/share.ts]

    A shallow embedding of [defaultHasChanged] and of the static class
    [LitShare], together with the small fragment of ECMAScript that the
    class relies on: strict equality, truthiness, ordinary objects with a
    prototype chain (the [values] store is the object literal [{}]),
    insertion-ordered [Map]s and [Set]s, and exceptions.

    Scope of the model.
    - Listeners, custom [hasChanged] functions and the elements'
      [requestUpdate] method are host code.  They run on a host state
      [Ext], they may return or throw, and they do not call back into the
      registry while one of its operations is running.
    - [Object.prototype] is the pristine intrinsic of the realm.
    - Objects other than [Object.prototype] that end up on the prototype
      chain of [values] carry writable data properties only, and their own
      chain ends at [Object.prototype]; the assignment [values[key] = value]
      is modelled where it cannot throw.
    Statements about the state that a call of [set] leaves behind say so
    when they depend on this scope: they ask that [values] still has
    [Object.prototype] as its prototype and that the call made no call of
    its own. *)

From Stdlib Require Import ZArith SpecFloat.
From stdpp Require Import gmap strings list.

Open Scope string_scope.
Open Scope list_scope.

(** ** ECMAScript values *)

Module JS.

(** Object identities.  [BuiltinRef k] is the built-in function object
    found at [Object.prototype[k]]; [HeapRef n] is an object allocated by
    the program. *)
Inductive Ref : Type :=
| ObjectPrototypeRef
| BuiltinRef (name : string)
| HeapRef (address : nat).

#[global] Instance Ref_eq_dec : EqDecision Ref.
Proof. solve_decision. Defined.

#[global] Instance spec_float_eq_dec : EqDecision spec_float.
Proof. solve_decision. Defined.

(** Numbers are IEEE 754 binary64 values in the representation of the
    standard library's [SpecFloat]. *)
Inductive Value : Type :=
| VUndefined
| VNull
| VBoolean (b : bool)
| VNumber (x : spec_float)
| VString (s : string)
| VBigInt (z : Z)
| VSymbol (id : nat)
| VObject (r : Ref).

#[global] Instance Value_eq_dec : EqDecision Value.
Proof. solve_decision. Defined.

Definition NaN : Value := VNumber S754_nan.

Definition number_one : spec_float := Eval cbv in SFone 53 1024.

(** [x === y] (IsStrictlyEqual): same type, numbers by IEEE equality,
    objects and symbols by identity. *)
Definition strict_equals (x y : Value) : bool :=
  match x, y with
  | VUndefined, VUndefined => true
  | VNull, VNull => true
  | VBoolean a, VBoolean b => bool_decide (a = b)
  | VNumber a, VNumber b => SFeqb a b
  | VString a, VString b => bool_decide (a = b)
  | VBigInt a, VBigInt b => bool_decide (a = b)
  | VSymbol a, VSymbol b => bool_decide (a = b)
  | VObject a, VObject b => bool_decide (a = b)
  | _, _ => false
  end.

Definition is_NaN (x : Value) : bool :=
  match x with
  | VNumber S754_nan => true
  | _ => false
  end.

(** ToBoolean: the falsy values are [undefined], [null], [false], [+0],
    [-0], [NaN], the empty string and [0n]. *)
Definition ToBoolean (x : Value) : bool :=
  match x with
  | VUndefined | VNull => false
  | VBoolean b => b
  | VNumber (S754_zero _) | VNumber S754_nan => false
  | VNumber _ => true
  | VString s => negb (bool_decide (s = ""))
  | VBigInt z => negb (bool_decide (z = 0%Z))
  | VSymbol _ | VObject _ => true
  end.

(** An optional argument that is omitted reads as [undefined]. *)
Definition optional (x : option Value) : Value := default VUndefined x.

(** An optional [boolean] argument in a condition. *)
Definition truthy (force : option bool) : bool := default false force.

(** Completion records: a call returns or throws. *)
Inductive Completion (A : Type) : Type :=
| Normal (a : A)
| Throw (exn : Value).

Arguments Normal {A} a.
Arguments Throw {A} exn.

(** *** [Map], [Set] and arrays

    A [Map] is its list of entries in insertion order; keys are unique.
    [Map.prototype.set] on a present key replaces the value in place, on
    an absent key appends an entry. *)
Section Collections.
Context {K : Type} `{EqDecision K} {V : Type}.

Fixpoint Map_get (m : list (K * V)) (k : K) : option V :=
  match m with
  | [] => None
  | (k', v) :: rest => if decide (k' = k) then Some v else Map_get rest k
  end.

Fixpoint Map_set (m : list (K * V)) (k : K) (v : V) : list (K * V) :=
  match m with
  | [] => [(k, v)]
  | (k', v') :: rest =>
      if decide (k' = k) then (k, v) :: rest else (k', v') :: Map_set rest k v
  end.

Fixpoint Map_delete (m : list (K * V)) (k : K) : list (K * V) :=
  match m with
  | [] => []
  | (k', v') :: rest =>
      if decide (k' = k) then rest else (k', v') :: Map_delete rest k
  end.

(** A [Set] is its list of members in insertion order, without
    duplicates. *)
Definition Set_has (s : list K) (x : K) : bool := bool_decide (x ∈ s).

Definition Set_add (s : list K) (x : K) : list K :=
  if Set_has s x then s else s ++ [x].

Fixpoint Set_delete (s : list K) (x : K) : list K :=
  match s with
  | [] => []
  | y :: rest => if decide (y = x) then rest else y :: Set_delete rest x
  end.

(** [Array.prototype.includes] (SameValueZero, which on strings is
    equality) and [push]. *)
Definition Array_includes (a : list K) (x : K) : bool := bool_decide (x ∈ a).

Definition Array_push (a : list K) (x : K) : list K := a ++ [x].

End Collections.

(** *** Ordinary objects

    The [values] store is created by the literal [{}]: an ordinary object
    whose prototype is [Object.prototype].  Its own properties are the
    data properties created by assignment. *)
Record Object : Type := mkObject {
  own : gmap string Value;
  prototype : option Ref (* [[Prototype]]; [None] is [null] *)
}.

(** [{}] *)
Definition empty_object : Object :=
  {| own := ∅; prototype := Some ObjectPrototypeRef |}.

(** What a lookup finds above the object itself. *)
Inductive Inherited : Type :=
| DataProperty (v : Value)
| ProtoAccessor. (* the getter/setter pair [Object.prototype.__proto__] *)

(** The data properties of [Object.prototype]; all of them are writable
    function objects. *)
Definition ObjectPrototype_methods : list string :=
  [ "constructor"; "__defineGetter__"; "__defineSetter__"; "hasOwnProperty";
    "__lookupGetter__"; "__lookupSetter__"; "isPrototypeOf";
    "propertyIsEnumerable"; "toString"; "valueOf"; "toLocaleString" ].

Definition ObjectPrototype_property (k : string) : option Inherited :=
  if bool_decide (k = "__proto__") then Some ProtoAccessor
  else if bool_decide (k ∈ ObjectPrototype_methods)
       then Some (DataProperty (VObject (BuiltinRef k)))
       else None.

(** The heap, as far as the registry can observe it: [chain r k] is the
    data property named [k] found on object [r] or on its prototypes below
    [Object.prototype]. *)
Definition Chain : Type := Ref → string → option Value.

Definition inherited (chain : Chain) (p : option Ref) (k : string)
  : option Inherited :=
  match p with
  | None => None
  | Some ObjectPrototypeRef => ObjectPrototype_property k
  | Some r =>
      match chain r k with
      | Some v => Some (DataProperty v)
      | None => ObjectPrototype_property k
      end
  end.

(** The value of [Object.getPrototypeOf(o)]. *)
Definition prototype_value (p : option Ref) : Value :=
  match p with
  | Some r => VObject r
  | None => VNull
  end.

(** [o[k]] *)
Definition obj_get (chain : Chain) (o : Object) (k : string) : Value :=
  match own o !! k with
  | Some v => v
  | None =>
      match inherited chain (prototype o) k with
      | Some (DataProperty v) => v
      | Some ProtoAccessor => prototype_value (prototype o)
      | None => VUndefined
      end
  end.

(** [k in o] *)
Definition obj_has (chain : Chain) (o : Object) (k : string) : bool :=
  match own o !! k with
  | Some _ => true
  | None => bool_decide (is_Some (inherited chain (prototype o) k))
  end.

(** [o[k] = v].  An own property is overwritten; an inherited writable
    data property, or no property at all, makes the assignment create an
    own property; the inherited [__proto__] setter replaces the prototype
    when [v] is an object or [null] and ignores every other value. *)
Definition obj_set (chain : Chain) (o : Object) (k : string) (v : Value)
  : Object :=
  match own o !! k with
  | Some _ => {| own := <[k := v]> (own o); prototype := prototype o |}
  | None =>
      match inherited chain (prototype o) k with
      | Some ProtoAccessor =>
          match v with
          | VObject r => {| own := own o; prototype := Some r |}
          | VNull => {| own := own o; prototype := None |}
          | _ => o
          end
      | _ => {| own := <[k := v]> (own o); prototype := prototype o |}
      end
  end.

End JS.

Export JS.

(** ** The host: component instances and callbacks *)

(** Component instances, listeners and custom equality functions are
    compared by identity. *)
Inductive Element : Type := ElementId (n : nat).
Inductive Listener : Type := ListenerId (n : nat).
Inductive HasChanged : Type := HasChangedId (n : nat).

#[global] Instance Element_eq_dec : EqDecision Element.
Proof. solve_decision. Defined.

#[global] Instance Listener_eq_dec : EqDecision Listener.
Proof. solve_decision. Defined.

#[global] Instance HasChanged_eq_dec : EqDecision HasChanged.
Proof. solve_decision. Defined.

(** What the registry calls into.  Each callback acts on the host state
    and returns or throws; [heap_chain] is what the host state lets a
    lookup find on the objects of the heap. *)
Class Host : Type := {
  Ext : Type;
  heap_chain : Ext → Chain;
  hasChanged_body : HasChanged → Value → Value → Ext → Completion Value * Ext;
  listener_body : Listener → Value → Value → Ext → Completion unit * Ext;
  element_requestUpdate :
    Element → string → Value → Ext → Completion unit * Ext
}.

(** The calls that leave the registry, in the order they are made. *)
Inductive Event : Type :=
| ListenerCall (listener : Listener) (newValue oldValue : Value)
| UpdateRequest (element : Element) (target : string) (oldValue : Value).

#[global] Instance Event_eq_dec : EqDecision Event.
Proof. solve_decision. Defined.

(** ** [export const defaultHasChanged] *)

Definition defaultHasChanged (value oldValue : Value) : bool :=
  negb (strict_equals value oldValue)
  && (strict_equals value value || strict_equals oldValue oldValue).

(** ** [export class LitShare] *)

Module LitShare.

(** The four static fields. *)
Record Registry : Type := mkRegistry {
  values : Object;
  requestUpdates : gmap string (list (Element * list string));
  hasChangedFunctions : gmap string HasChanged;
  listeners : gmap string (list Listener)
}.

Definition initial : Registry :=
  {| values := empty_object; requestUpdates := ∅;
     hasChangedFunctions := ∅; listeners := ∅ |}.

Definition with_values (o : Object) (r : Registry) : Registry :=
  {| values := o; requestUpdates := requestUpdates r;
     hasChangedFunctions := hasChangedFunctions r; listeners := listeners r |}.

Definition with_requestUpdates
  (m : gmap string (list (Element * list string))) (r : Registry) : Registry :=
  {| values := values r; requestUpdates := m;
     hasChangedFunctions := hasChangedFunctions r; listeners := listeners r |}.

Definition with_hasChangedFunctions
  (m : gmap string HasChanged) (r : Registry) : Registry :=
  {| values := values r; requestUpdates := requestUpdates r;
     hasChangedFunctions := m; listeners := listeners r |}.

Definition with_listeners
  (m : gmap string (list Listener)) (r : Registry) : Registry :=
  {| values := values r; requestUpdates := requestUpdates r;
     hasChangedFunctions := hasChangedFunctions r; listeners := m |}.

Definition findRequestUpdate (key : string) (element : Element) (r : Registry)
  : option (list string) :=
  match requestUpdates r !! key with
  | Some elementMap => Map_get elementMap element
  | None => None
  end.

Definition register (key : string) (element : Element) (target : option string)
  (r : Registry) : Registry :=
  let target :=
    match target with
    | Some t => if bool_decide (t = "") then key else t
    | None => key
    end in
  let r :=
    if bool_decide (is_Some (requestUpdates r !! key)) then r
    else with_requestUpdates (<[key := []]> (requestUpdates r)) r in
  let elementMap := default [] (requestUpdates r !! key) in
  match Map_get elementMap element with
  | None =>
      with_requestUpdates
        (<[key := Map_set elementMap element [target]]> (requestUpdates r)) r
  | Some targets =>
      if Array_includes targets target then r
      else with_requestUpdates
             (<[key := Map_set elementMap element (Array_push targets target)]>
                (requestUpdates r)) r
  end.

Definition unregister (key : string) (element : Element) (r : Registry)
  : Registry :=
  match requestUpdates r !! key with
  | Some elementMap =>
      with_requestUpdates
        (<[key := Map_delete elementMap element]> (requestUpdates r)) r
  | None => r
  end.

Definition unregisterElement (element : Element) (r : Registry) : Registry :=
  foldl (λ acc key, unregister key element acc) r
        (map_to_list (requestUpdates r)).*1.

(** [addListener] also returns the closure [() => removeListener(key,
    listener)]; the closure is the partial application of
    [removeListener] below. *)
Definition addListener (key : string) (listener : Listener) (r : Registry)
  : Registry :=
  let r :=
    if bool_decide (is_Some (listeners r !! key)) then r
    else with_listeners (<[key := []]> (listeners r)) r in
  with_listeners
    (<[key := Set_add (default [] (listeners r !! key)) listener]>
       (listeners r)) r.

Definition removeListener (key : string) (listener : Listener) (r : Registry)
  : Registry :=
  match listeners r !! key with
  | Some listenerSet =>
      with_listeners (<[key := Set_delete listenerSet listener]> (listeners r)) r
  | None => r
  end.

(** What the decorator [share] does with a [hasChanged] option. *)
Definition setHasChanged (key : string) (f : HasChanged) (r : Registry)
  : Registry :=
  with_hasChangedFunctions (<[key := f]> (hasChangedFunctions r)) r.

Section Effects.
Context {host : Host}.

(** The state an operation runs on: the registry, the host state, and the
    calls made so far. *)
Record World : Type := mkWorld {
  registry : Registry;
  ext : Ext;
  log : list Event
}.

Definition M (A : Type) : Type := World → Completion A * World.

#[export] Instance M_ret : MRet M := λ A a w, (Normal a, w).

#[export] Instance M_bind : MBind M := λ A B f m w,
  match m w with
  | (Normal a, w') => f a w'
  | (Throw e, w') => (Throw e, w')
  end.

Definition read {A : Type} (f : Registry → Ext → A) : M A :=
  λ w, (Normal (f (registry w) (ext w)), w).

Definition update (f : Registry → Ext → Registry) : M unit :=
  λ w, (Normal (),
        {| registry := f (registry w) (ext w); ext := ext w; log := log w |}).

(** A call into host code: the call is logged, then the body runs. *)
Definition call {A : Type} (events : list Event)
  (body : Ext → Completion A * Ext) : M A :=
  λ w, let '(c, x) := body (ext w) in
       (c, {| registry := registry w; ext := x; log := log w ++ events |}).

Fixpoint for_each {A : Type} (l : list A) (body : A → M unit) : M unit :=
  match l with
  | [] => mret ()
  | x :: rest => body x ;; for_each rest body
  end.

Definition requestUpdate (key : string) (oldValue : Value) (force : option bool)
  : M unit :=
  elementMap ← read (λ r _, requestUpdates r !! key);
  match elementMap with
  | Some elementMap =>
      for_each elementMap (λ '(element, targets),
        for_each targets (λ target,
          let hint := if truthy force then VUndefined else oldValue in
          call [UpdateRequest element target hint]
               (element_requestUpdate element target hint)))
  | None => mret ()
  end.

Definition set (key : string) (value : Value) (force : option bool) : M unit :=
  oldValue ← read (λ r x, obj_get (heap_chain x) (values r) key);
  changed ←
    (if negb (truthy force) then
       hasChanged ← read (λ r _, hasChangedFunctions r !! key);
       match hasChanged with
       | Some f =>
           result ← call [] (hasChanged_body f value oldValue);
           mret (ToBoolean result)
       | None => mret (defaultHasChanged value oldValue)
       end
     else mret true);
  if negb changed then mret ()
  else
    update (λ r x, with_values (obj_set (heap_chain x) (values r) key value) r) ;;
    listenerSet ← read (λ r _, listeners r !! key);
    match listenerSet with
    | Some listenerSet =>
        for_each listenerSet (λ listener,
          call [ListenerCall listener value oldValue]
               (listener_body listener value oldValue))
    | None => mret ()
    end ;;
    requestUpdate key oldValue force.

Definition get (key : string) (defaultValue : option Value) (w : World)
  : Value :=
  if obj_has (heap_chain (ext w)) (values (registry w)) key
  then obj_get (heap_chain (ext w)) (values (registry w)) key
  else optional defaultValue.

End Effects.

End LitShare.

Import LitShare.

(** ** Notions used to state the properties *)

Section Notions.
Context {host : Host}.

(** [this.values[key]] as [set] reads it. *)
Definition stored (key : string) (w : World) : Value :=
  obj_get (heap_chain (ext w)) (values (registry w)) key.

(** The world with another host state. *)
Definition with_ext (x : Ext) (w : World) : World :=
  {| registry := registry w; ext := x; log := log w |}.

(** [equality_reports key value w c x]: the equality function in effect
    for [key], applied to [value] and the stored value in world [w],
    completes with [c] and leaves the host in state [x]. *)
Inductive equality_reports (key : string) (value : Value) (w : World)
  : Completion bool → Ext → Prop :=
| default_equality :
    hasChangedFunctions (registry w) !! key = None →
    equality_reports key value w
      (Normal (defaultHasChanged value (stored key w))) (ext w)
| custom_equality_returns f result x :
    hasChangedFunctions (registry w) !! key = Some f →
    hasChanged_body f value (stored key w) (ext w) = (Normal result, x) →
    equality_reports key value w (Normal (ToBoolean result)) x
| custom_equality_throws f exn x :
    hasChangedFunctions (registry w) !! key = Some f →
    hasChanged_body f value (stored key w) (ext w) = (Throw exn, x) →
    equality_reports key value w (Throw exn) x.

(** A call [set(key, value, force)] is accepted when it is forced or the
    equality function in effect reports a change. *)
Definition accepted (key : string) (value : Value) (force : option bool)
  (w : World) (x : Ext) : Prop :=
  (truthy force = true ∧ x = ext w)
  ∨ (truthy force = false ∧ equality_reports key value w (Normal true) x).

(** The world in which an accepted call starts to notify. *)
Definition after_store (key : string) (value : Value) (x : Ext) (w : World)
  : World :=
  {| registry :=
       with_values (obj_set (heap_chain x) (values (registry w)) key value)
                   (registry w);
     ext := x; log := log w |}.

(** Running host calls one after the other until one throws: the
    completion, the final host state, and the items whose call was made. *)
Fixpoint run_calls {A : Type} (body : A → Ext → Completion unit * Ext)
  (l : list A) (x : Ext) : Completion unit * Ext * list A :=
  match l with
  | [] => (Normal (), x, [])
  | a :: rest =>
      match body a x with
      | (Normal _, x') =>
          let '(c, x'', called) := run_calls body rest x' in
          (c, x'', a :: called)
      | (Throw e, x') => (Throw e, x', [a])
      end
  end.

(** The listeners of a key in the order [for ... of] visits them. *)
Definition listeners_of (key : string) (r : Registry) : list Listener :=
  default [] (listeners r !! key).

(** The (element, target) pairs of a key in the order [requestUpdate]
    visits them. *)
Definition subscriptions_of (key : string) (r : Registry)
  : list (Element * string) :=
  default [] (requestUpdates r !! key)
    ≫= (λ '(element, targets), (λ target, (element, target)) <$> targets).

Definition listener_calls (value oldValue : Value) (l : list Listener)
  : list Event :=
  (λ listener, ListenerCall listener value oldValue) <$> l.

Definition update_requests (hint : Value) (l : list (Element * string))
  : list Event :=
  (λ '(element, target), UpdateRequest element target hint) <$> l.

(** The previous-value hint handed to [element.requestUpdate]. *)
Definition hint_of (force : option bool) (oldValue : Value) : Value :=
  if truthy force then VUndefined else oldValue.

(** The property name under which [register] subscribes: lines 52-54. *)
Definition target_name (key : string) (target : option string) : string :=
  match target with
  | Some t => if bool_decide (t = "") then key else t
  | None => key
  end.

(** Every element recorded under every key has at least one target. *)
Definition targets_nonempty (r : Registry) : Prop :=
  ∀ key elementMap element targets,
    requestUpdates r !! key = Some elementMap →
    (element, targets) ∈ elementMap →
    targets ≠ [].

End Notions.

(** ** [export function share]

    [share(options)] returns the decorator; applied to a class prototype
    and a property name it records the custom equality function, if any,
    and installs an accessor pair on the prototype.  The accessors are
    modelled by the two functions a property read and a property write
    run, with the instance they run on. *)
Record ShareDeclaration : Type := mkShareDeclaration {
  decl_key : option string;
  decl_hasChanged : option HasChanged
}.

(** [options?.key ?? key] *)
Definition shareKey (options : option ShareDeclaration) (key : string)
  : string :=
  default key (options ≫= decl_key).

(** The decorator itself: lines 195-201. *)
Definition share (options : option ShareDeclaration) (key : string)
  (r : Registry) : Registry :=
  match options ≫= decl_hasChanged with
  | Some f => setHasChanged (shareKey options key) f r
  | None => r
  end.

Section Accessors.
Context {host : Host}.

(** The [set] accessor: lines 204-207. *)
Definition property_set (options : option ShareDeclaration) (key : string)
  (value : Value) : M unit :=
  set (shareKey options key) value None.

(** The [get] accessor, run on the instance [this]: lines 208-212. *)
Definition property_get (options : option ShareDeclaration) (key : string)
  (this : Element) : M Value :=
  update (λ r _, register (shareKey options key) this None r) ;;
  ((λ w, (Normal (get (shareKey options key) None w), w)) : M Value).

End Accessors.

(** ** The representation invariant

    A [Map] has one entry per key and a [Set] holds a member once; the
    arrays of property names hold a name once because [register] pushes
    a name only when [includes] does not find it. *)
Definition well_formed (r : Registry) : Prop :=
  (∀ key elementMap,
     requestUpdates r !! key = Some elementMap → NoDup elementMap.*1)
  ∧ (∀ key elementMap element targets,
       requestUpdates r !! key = Some elementMap →
       (element, targets) ∈ elementMap → NoDup targets)
  ∧ (∀ key listenerSet,
       listeners r !! key = Some listenerSet → NoDup listenerSet).

(** ** A concrete host, for examples

    The host state counts the callbacks that have run.  Equality function
    0 never reports a change, equality function 1 throws, every other one
    always reports a change; listener 13 throws, every other one returns;
    [requestUpdate] returns.  Object 1 of the heap has a property [a]. *)
Definition demo_host : Host := {|
  Ext := nat;
  heap_chain := λ _ r k,
    match r with
    | HeapRef 1 => if bool_decide (k = "a") then Some (VBoolean true) else None
    | _ => None
    end;
  hasChanged_body := λ f _ _ n,
    match f with
    | HasChangedId 0 => (Normal (VBoolean false), S n)
    | HasChangedId 1 => (Throw (VString "hasChanged failed"), S n)
    | HasChangedId _ => (Normal (VBoolean true), S n)
    end;
  listener_body := λ l _ _ n,
    match l with
    | ListenerId 13 => (Throw (VString "listener failed"), S n)
    | ListenerId _ => (Normal (), S n)
    end;
  element_requestUpdate := λ _ _ _ n, (Normal (), S n)
|}.

Definition demo_world (r : Registry) : @World demo_host :=
  @mkWorld demo_host r 0%nat [].

(** A second host, in which element 7 refuses to update [total] and
    everything else returns. *)
Definition failing_host : Host := {|
  Ext := nat;
  heap_chain := λ _ _ _, None;
  hasChanged_body := λ _ _ _ n, (Normal (VBoolean true), S n);
  listener_body := λ _ _ _ n, (Normal (), S n);
  element_requestUpdate := λ e t _ n,
    match e with
    | ElementId 7 =>
        if bool_decide (t = "total")
        then (Throw (VString "update failed"), S n)
        else (Normal (), S n)
    | ElementId _ => (Normal (), S n)
    end
|}.

Definition one : Value := VNumber number_one.

(** Two components have read [count]; one of them also under the
    property name [total]; two listeners watch it. *)
Definition demo_registry : Registry :=
  addListener "count" (ListenerId 2)
    (addListener "count" (ListenerId 1)
       (register "count" (ElementId 7) (Some "total")
          (register "count" (ElementId 7) None
             (register "count" (ElementId 8) None initial)))).

(** ** Strict equality and the default equality *)

Lemma SFeqb_refl (x : spec_float) :
  SFeqb x x = negb (bool_decide (x = S754_nan)).
Proof.
  destruct x as [s|s| |s m e]; try (by destruct s); try done.
  unfold SFeqb, SFcompare.
  rewrite Z.compare_refl, Pos.compare_cont_refl.
  by destruct s.
Qed.

Lemma strict_equals_refl (v : Value) : strict_equals v v = negb (is_NaN v).
Proof.
  destruct v as [| |b|x|s|z|n|r]; cbn [strict_equals is_NaN negb];
    try done; try (by rewrite bool_decide_eq_true_2).
  rewrite SFeqb_refl. by destruct x.
Qed.

Lemma SFeqb_nan_l (x : spec_float) : SFeqb S754_nan x = false.
Proof. by destruct x. Qed.

Lemma SFeqb_nan_r (x : spec_float) : SFeqb x S754_nan = false.
Proof. by destruct x. Qed.

Lemma strict_equals_NaN_l (v : Value) : strict_equals NaN v = false.
Proof. destruct v; try done; apply SFeqb_nan_l. Qed.

Lemma strict_equals_NaN_r (v : Value) : strict_equals v NaN = false.
Proof. destruct v; try done; apply SFeqb_nan_r. Qed.

(** Strictly equal numbers are the same float, up to the sign of zero. *)
Lemma SFeqb_true (x y : spec_float) :
  SFeqb x y = true →
  x = y ∨ ∃ s t, x = S754_zero s ∧ y = S754_zero t.
Proof.
  unfold SFeqb, SFcompare.
  destruct x as [s|s| |s m e], y as [t|t| |t n f]; try done.
  all: try (destruct s; done).
  all: try (destruct t; done).
  - intros _. right. eauto.
  - destruct s, t; try done; by left.
  - change (PosDef.Pos.compare_cont Eq m n) with (Pos.compare m n).
    destruct s, t; try done;
      destruct (Z.compare_spec e f) as [->| |]; try done;
      destruct (Pos.compare_spec m n) as [->| |]; try done;
      by left.
Qed.

Lemma strict_equals_true (v o : Value) :
  strict_equals v o = true →
  v = o ∨ ∃ s t, v = VNumber (S754_zero s) ∧ o = VNumber (S754_zero t).
Proof.
  destruct v, o; cbn [strict_equals]; try done;
    try (intros _; by left);
    try (intros ?%bool_decide_eq_true; subst; by left).
  intros [->|(s & t & -> & ->)]%SFeqb_true; [by left | right; eauto].
Qed.

Lemma strict_equals_object (v : Value) (r : Ref) :
  strict_equals v (VObject r) = true → v = VObject r.
Proof. intros [?|(s & t & ? & ?)]%strict_equals_true; done. Qed.

Lemma defaultHasChanged_formula (value oldValue : Value) :
  defaultHasChanged value oldValue
  = negb (strict_equals value oldValue)
    && negb (is_NaN value && is_NaN oldValue).
Proof.
  unfold defaultHasChanged. rewrite !strict_equals_refl.
  by destruct (strict_equals value oldValue), (is_NaN value), (is_NaN oldValue).
Qed.

Lemma defaultHasChanged_false (value oldValue : Value) :
  defaultHasChanged value oldValue = false →
  strict_equals value oldValue = true
  ∨ (is_NaN value = true ∧ is_NaN oldValue = true).
Proof.
  rewrite defaultHasChanged_formula.
  destruct (strict_equals value oldValue), (is_NaN value), (is_NaN oldValue);
    simpl; auto; discriminate.
Qed.

Lemma is_NaN_true (v : Value) : is_NaN v = true → v = NaN.
Proof. destruct v as [| | |x| | | |]; try done. by destruct x. Qed.

Lemma defaultHasChanged_NaN_NaN : defaultHasChanged NaN NaN = false.
Proof. reflexivity. Qed.

Lemma defaultHasChanged_NaN_r (v : Value) :
  defaultHasChanged v NaN = negb (is_NaN v).
Proof.
  rewrite defaultHasChanged_formula, strict_equals_NaN_r. simpl.
  by destruct (is_NaN v).
Qed.

Lemma defaultHasChanged_undefined : defaultHasChanged VUndefined VUndefined = false.
Proof. reflexivity. Qed.

(** ** The [values] object *)

Lemma ObjectPrototype_property_accessor (k : string) :
  ObjectPrototype_property k = Some ProtoAccessor → k = "__proto__".
Proof.
  unfold ObjectPrototype_property.
  case_bool_decide; [done|]. by case_bool_decide.
Qed.

Lemma inherited_accessor (chain : Chain) (p : option Ref) (k : string) :
  inherited chain p k = Some ProtoAccessor → k = "__proto__".
Proof.
  destruct p as [[]|]; simpl; try done;
    try destruct (chain _ k); try done;
    apply ObjectPrototype_property_accessor.
Qed.

Lemma ObjectPrototype_property_ordinary (k : string) :
  k ≠ "__proto__" → k ∉ ObjectPrototype_methods →
  ObjectPrototype_property k = None.
Proof.
  intros ??. unfold ObjectPrototype_property.
  by rewrite !bool_decide_eq_false_2.
Qed.

(** An assignment to any key but [__proto__] leaves an own property. *)
Lemma obj_set_own (chain : Chain) (o : Object) (k : string) (v : Value) :
  k ≠ "__proto__" → own (obj_set chain o k v) !! k = Some v.
Proof.
  intros Hk. unfold obj_set.
  destruct (own o !! k); simpl; [by rewrite lookup_insert_eq|].
  destruct (inherited chain (prototype o) k) as [[]|] eqn:E; simpl;
    try (by rewrite lookup_insert_eq).
  by apply inherited_accessor in E.
Qed.

Lemma obj_set_get (chain chain' : Chain) (o : Object) (k : string) (v : Value) :
  k ≠ "__proto__" → obj_get chain' (obj_set chain o k v) k = v.
Proof. intros Hk. unfold obj_get. by rewrite obj_set_own. Qed.

Lemma obj_set_has (chain chain' : Chain) (o : Object) (k : string) (v : Value) :
  k ≠ "__proto__" → obj_has chain' (obj_set chain o k v) k = true.
Proof. intros Hk. unfold obj_has. by rewrite obj_set_own. Qed.

(** A key that is not [in] the object reads as [undefined]. *)
Lemma obj_has_false_get (chain : Chain) (o : Object) (k : string) :
  obj_has chain o k = false → obj_get chain o k = VUndefined.
Proof.
  unfold obj_has, obj_get. destruct (own o !! k); [done|].
  intros H%bool_decide_eq_false.
  destruct (inherited chain (prototype o) k); [|done].
  exfalso. apply H. eauto.
Qed.

(** On the object [{}] a key is found exactly when [Object.prototype]
    has it. *)
Lemma obj_has_empty_object (chain : Chain) (k : string) :
  obj_has chain empty_object k
  = bool_decide (k = "__proto__" ∨ k ∈ ObjectPrototype_methods).
Proof.
  unfold obj_has, empty_object; simpl. rewrite lookup_empty.
  apply bool_decide_ext. unfold ObjectPrototype_property.
  destruct (decide (k = "__proto__")) as [->|Hk].
  { split; [by left | by eexists]. }
  rewrite (bool_decide_eq_false_2 (k = "__proto__")) by done.
  destruct (decide (k ∈ ObjectPrototype_methods)) as [Hin|Hin].
  - rewrite (bool_decide_eq_true_2 (k ∈ _)) by done.
    split; [by right | by eexists].
  - rewrite (bool_decide_eq_false_2 (k ∈ _)) by done.
    split; [by intros [? [=]] | by intros [|]].
Qed.

(** ** The effects of the loops *)

Section Loops.
Context {host : Host}.

Lemma for_each_ext {A : Type} (f g : A → M unit) (l : list A) (w : World) :
  (∀ a w', f a w' = g a w') → for_each l f w = for_each l g w.
Proof.
  intros Hfg. revert w. induction l as [|a l IH]; intros w; [done|].
  simpl. unfold mbind, M_bind. rewrite Hfg.
  destruct (g a w) as [[[]|e] w']; [apply IH|done].
Qed.

Lemma for_each_app {A : Type} (f : A → M unit) (l1 l2 : list A) (w : World) :
  for_each (l1 ++ l2) f w = (for_each l1 f ;; for_each l2 f) w.
Proof.
  revert w. induction l1 as [|a l1 IH]; intros w; [done|].
  simpl. unfold mbind, M_bind in *.
  destruct (f a w) as [[[]|e] w']; [apply IH|done].
Qed.

Lemma for_each_fmap {A B : Type} (h : A → B) (f : B → M unit) (l : list A)
  (w : World) :
  for_each (h <$> l) f w = for_each l (λ a, f (h a)) w.
Proof.
  revert w. induction l as [|a l IH]; intros w; [done|].
  simpl. unfold mbind, M_bind.
  destruct (f (h a) w) as [[[]|e] w']; [apply IH|done].
Qed.

(** The two nested loops of [requestUpdate] visit the (element, target)
    pairs in order. *)
Lemma for_each_nested {A B : Type} (f : A → B → M unit) (l : list (A * list B))
  (w : World) :
  for_each l (λ '(a, bs), for_each bs (f a)) w
  = for_each (l ≫= (λ '(a, bs), (λ b, (a, b)) <$> bs)) (λ '(a, b), f a b) w.
Proof.
  revert w. induction l as [|[a bs] l IH]; intros w; [done|].
  rewrite bind_cons, for_each_app. simpl. unfold mbind, M_bind.
  rewrite for_each_fmap.
  destruct (for_each bs _ w) as [[[]|e] w']; [apply IH|done].
Qed.

Lemma for_each_call {A : Type} (ev : A → Event)
  (body : A → Ext → Completion unit * Ext) (l : list A) (w : World) :
  for_each l (λ a, call [ev a] (body a)) w
  = let '(c, x, called) := run_calls body l (ext w) in
    (c, {| registry := registry w; ext := x; log := log w ++ (ev <$> called) |}).
Proof.
  revert w. induction l as [|a l IH]; intros w.
  - simpl. rewrite app_nil_r. by destruct w.
  - simpl. unfold mbind, M_bind, call at 1.
    destruct (body a (ext w)) as [[[]|e] x']; [|done].
    rewrite IH. simpl.
    destruct (run_calls body l x') as [[c x''] called].
    by rewrite fmap_cons, <- app_assoc.
Qed.

Lemma run_calls_prefix {A : Type} (body : A → Ext → Completion unit * Ext)
  (l : list A) (x : Ext) :
  (run_calls body l x).2 `prefix_of` l.
Proof.
  revert x. induction l as [|a l IH]; intros x; simpl; [done|].
  destruct (body a x) as [[[]|e] x']; simpl.
  - specialize (IH x'). destruct (run_calls body l x') as [[c x''] called].
    simpl in *. by apply prefix_cons.
  - by exists l.
Qed.

Lemma run_calls_normal {A : Type} (body : A → Ext → Completion unit * Ext)
  (l : list A) (x : Ext) (u : unit) (x' : Ext) (called : list A) :
  run_calls body l x = (Normal u, x', called) → called = l.
Proof.
  revert x called. induction l as [|a l IH]; intros x called; simpl.
  - by intros [= _ _ <-].
  - destruct (body a x) as [[[]|e] x1]; [|done].
    destruct (run_calls body l x1) as [[c x2] called'] eqn:E.
    intros [= -> -> <-]. f_equal. by eapply IH.
Qed.

(** A throwing call is the last one made. *)
Lemma run_calls_throw {A : Type} (body : A → Ext → Completion unit * Ext)
  (before after : list A) (a : A) (x x1 x2 : Ext) (exn : Value) :
  run_calls body before x = (Normal (), x1, before) →
  body a x1 = (Throw exn, x2) →
  run_calls body (before ++ a :: after) x = (Throw exn, x2, before ++ [a]).
Proof.
  revert x. induction before as [|b before IH]; intros x; simpl.
  - intros [= ->] ->. done.
  - destruct (body b x) as [[[]|e] x']; [|done].
    destruct (run_calls body before x') as [[c x''] called] eqn:E.
    intros [= -> -> ->] Ha. by rewrite (IH _ E Ha).
Qed.

Lemma run_calls_nonempty {A : Type} (body : A → Ext → Completion unit * Ext)
  (a : A) (l : list A) (x : Ext) :
  ∃ rest, (run_calls body (a :: l) x).2 = a :: rest.
Proof.
  simpl. destruct (body a x) as [[[]|e] x']; [|by eexists].
  destruct (run_calls body l x') as [[c x''] called]. by eexists.
Qed.

End Loops.

(** ** What [set] does *)

Section SetFacts.
Context {host : Host}.

Lemma with_ext_same (w : World) : with_ext (ext w) w = w.
Proof. by destruct w. Qed.

(** Lines 121-126: the call returns when the equality function reports
    no change. *)
Lemma set_unchanged (key : string) (value : Value) (force : option bool)
  (w : World) (x : Ext) :
  truthy force = false →
  equality_reports key value w (Normal false) x →
  set key value force w = (Normal (), with_ext x w).
Proof.
  intros Hforce Heq. unfold set, mbind, M_bind, read, mret, M_ret.
  rewrite Hforce. simpl. fold (stored key w).
  inversion Heq as [Hnone Hc|f result x' Hsome Hbody Hc|]; subst.
  - rewrite Hnone. simpl. rewrite Hc. simpl. by rewrite with_ext_same.
  - rewrite Hsome. unfold call. simpl. rewrite Hbody. simpl.
    rewrite Hc. simpl. by rewrite app_nil_r.
Qed.

(** ... and the exception of a throwing equality function leaves [set]
    at once. *)
Lemma set_equality_throws (key : string) (value : Value) (force : option bool)
  (w : World) (exn : Value) (x : Ext) :
  truthy force = false →
  equality_reports key value w (Throw exn) x →
  set key value force w = (Throw exn, with_ext x w).
Proof.
  intros Hforce Heq. unfold set, mbind, M_bind, read, mret, M_ret.
  rewrite Hforce. simpl. fold (stored key w).
  inversion Heq as [| |f exn' x' Hsome Hbody]; subst.
  rewrite Hsome. unfold call. simpl. rewrite Hbody. simpl.
  by rewrite app_nil_r.
Qed.

(** Lines 128-138: an accepted call stores the value, runs the listeners
    until one throws, and then, if none did, asks the elements to update
    until one of them throws. *)
Lemma set_accepted (key : string) (value : Value) (force : option bool)
  (w : World) (x : Ext) :
  accepted key value force w x →
  set key value force w
  = let oldValue := stored key w in
    let hint := hint_of force oldValue in
    let w1 := after_store key value x w in
    let '(c1, x1, called) :=
      run_calls (λ listener, listener_body listener value oldValue)
                (listeners_of key (registry w)) x in
    match c1 with
    | Throw exn =>
        (Throw exn,
         {| registry := registry w1; ext := x1;
            log := log w ++ listener_calls value oldValue called |})
    | Normal _ =>
        let '(c2, x2, requested) :=
          run_calls (λ '(element, target),
                       element_requestUpdate element target hint)
                    (subscriptions_of key (registry w)) x1 in
        (c2,
         {| registry := registry w1; ext := x2;
            log := log w ++ listener_calls value oldValue called
                         ++ update_requests hint requested |})
    end.
Proof.
  intros Hacc.
  assert (Hgate :
    (oldValue ← read (λ r x, obj_get (heap_chain x) (values r) key);
     if negb (truthy force) then
       hasChanged ← read (λ r _, hasChangedFunctions r !! key);
       match hasChanged with
       | Some f =>
           result ← call [] (hasChanged_body f value oldValue);
           mret (ToBoolean result)
       | None => mret (defaultHasChanged value oldValue)
       end
     else mret true) w = (Normal true, with_ext x w)).
  { unfold mbind, M_bind, read, mret, M_ret. simpl. fold (stored key w).
    destruct Hacc as [[Hforce ->]|[Hforce Heq]]; rewrite Hforce; simpl.
    - by rewrite with_ext_same.
    - inversion Heq as [Hnone Hc|f result x' Hsome Hbody Hc|]; subst.
      + rewrite Hnone. simpl. rewrite Hc. by rewrite with_ext_same.
      + rewrite Hsome. unfold call. simpl. rewrite Hbody. simpl.
        rewrite Hc. by rewrite app_nil_r. }
  unfold set. unfold mbind at 1, M_bind at 1, read at 1.
  unfold mbind at 1, M_bind at 1.
  unfold mbind at 1, M_bind at 1, read at 1 in Hgate.
  fold (stored key w) in Hgate |- *. simpl in Hgate |- *.
  rewrite Hgate. simpl.
  unfold mbind, M_bind, update, read, requestUpdate. simpl.
  unfold listeners_of, subscriptions_of.
  set (body := λ listener, listener_body listener value (stored key w)).
  set (w1 := {| registry := _; ext := x; log := log w |}).
  assert (Hloop :
    match listeners (registry w) !! key with
    | Some listenerSet =>
        for_each listenerSet (λ listener,
          call [ListenerCall listener value (stored key w)]
               (listener_body listener value (stored key w)))
    | None => mret ()
    end w1
    = let '(c, x1, called) :=
        run_calls body (default [] (listeners (registry w) !! key)) x in
      (c, {| registry := registry w1; ext := x1;
             log := log w ++ listener_calls value (stored key w) called |})).
  { destruct (listeners (registry w) !! key) as [ls|]; simpl.
    - by rewrite (for_each_call (λ l, ListenerCall l value (stored key w)) body).
    - by rewrite app_nil_r. }
  rewrite Hloop. clear Hloop.
  destruct (run_calls body _ x) as [[[[]|exn] x1] called]; [|done].
  simpl. unfold mbind, M_bind, read. simpl.
  destruct (requestUpdates (registry w) !! key) as [em|]; simpl.
  - rewrite for_each_nested.
    rewrite (for_each_ext _
      (λ p, call [(λ '(e, t), UpdateRequest e t (hint_of force (stored key w))) p]
                 ((λ '(e, t), element_requestUpdate e t
                                (hint_of force (stored key w))) p)));
      [|by intros [e t] w'].
    rewrite for_each_call. simpl.
    destruct (run_calls _ _ x1) as [[c2 x2] requested].
    by rewrite <- app_assoc.
  - by rewrite app_nil_r.
Qed.

End SetFacts.

Section SetOutcome.
Context {host : Host}.

Lemma equality_reports_exists (key : string) (value : Value) (w : World) :
  ∃ c x, equality_reports key value w c x.
Proof.
  destruct (hasChangedFunctions (registry w) !! key) as [f|] eqn:Hf.
  - destruct (hasChanged_body f value (stored key w) (ext w)) as [[result|exn] x]
      eqn:Hbody; eauto using equality_reports.
  - eauto using equality_reports.
Qed.

Lemma equality_reports_default (key : string) (value : Value) (w : World)
  (c : Completion bool) (x : Ext) :
  hasChangedFunctions (registry w) !! key = None →
  equality_reports key value w c x →
  c = Normal (defaultHasChanged value (stored key w)) ∧ x = ext w.
Proof. intros Hnone Heq. inversion Heq; subst; [done|congruence..]. Qed.

(** Every call is accepted, or changes nothing but what the equality
    function did to the host, or is left by the exception of the equality
    function. *)
Lemma set_cases (key : string) (value : Value) (force : option bool)
  (w : World) :
  (∃ x, accepted key value force w x)
  ∨ (∃ x, truthy force = false
          ∧ equality_reports key value w (Normal false) x
          ∧ set key value force w = (Normal (), with_ext x w))
  ∨ (∃ exn x, truthy force = false
              ∧ equality_reports key value w (Throw exn) x
              ∧ set key value force w = (Throw exn, with_ext x w)).
Proof.
  destruct (decide (truthy force = true)) as [Hforce|Hforce%not_true_is_false].
  { left. exists (ext w). by left. }
  destruct (equality_reports_exists key value w) as ([[|]|exn] & x & Heq).
  - left. exists x. by right.
  - right. left. exists x. eauto using set_unchanged.
  - right. right. exists exn, x. eauto using set_equality_throws.
Qed.

(** The calls of an accepted [set], in order. *)
Lemma set_accepted_log (key : string) (value : Value) (force : option bool)
  (w : World) (x : Ext) (c : Completion unit) (w' : World) :
  accepted key value force w x →
  set key value force w = (c, w') →
  registry w' = registry (after_store key value x w)
  ∧ ∃ called requested,
      log w' = log w ++ listener_calls value (stored key w) called
                     ++ update_requests (hint_of force (stored key w)) requested
      ∧ called `prefix_of` listeners_of key (registry w)
      ∧ requested `prefix_of` subscriptions_of key (registry w)
      ∧ (requested ≠ [] → called = listeners_of key (registry w))
      ∧ (c = Normal () →
         called = listeners_of key (registry w)
         ∧ requested = subscriptions_of key (registry w))
      ∧ (∀ l rest, listeners_of key (registry w) = l :: rest →
                   ∃ rest', called = l :: rest').
Proof.
  intros Hacc. rewrite (set_accepted _ _ _ _ _ Hacc). cbv zeta.
  set (body := λ listener, listener_body listener value (stored key w)).
  pose proof (run_calls_prefix body (listeners_of key (registry w)) x) as Hpre.
  assert (Hhead : ∀ l rest, listeners_of key (registry w) = l :: rest →
            ∃ rest', (run_calls body (listeners_of key (registry w)) x).2
                     = l :: rest').
  { intros l rest ->. apply run_calls_nonempty. }
  destruct (run_calls body _ x) as [[c1 x1] called] eqn:Hrun. simpl in *.
  destruct c1 as [[]|exn].
  - apply run_calls_normal in Hrun as ->.
    set (body' := λ '(element, target), element_requestUpdate element target _).
    pose proof (run_calls_prefix body' (subscriptions_of key (registry w)) x1)
      as Hpre'.
    destruct (run_calls body' _ x1) as [[c2 x2] requested] eqn:Hrun'.
    simpl in *. intros [= <- <-]. simpl. split; [done|].
    exists (listeners_of key (registry w)), requested.
    split_and!; try done.
    intros ->. by apply run_calls_normal in Hrun' as ->.
  - intros [= <- <-]. simpl. split; [done|].
    exists called, []. unfold update_requests. rewrite fmap_nil, app_nil_r.
    split_and!; try done. apply prefix_nil.
Qed.

(** With the default equality the outcome of the comparison decides. *)
Lemma set_default_unchanged (key : string) (value : Value) (force : option bool)
  (w : World) :
  truthy force = false →
  hasChangedFunctions (registry w) !! key = None →
  defaultHasChanged value (stored key w) = false →
  set key value force w = (Normal (), w).
Proof.
  intros Hforce Hnone Hc.
  rewrite (set_unchanged key value force w (ext w)), with_ext_same; [done..|].
  rewrite <- Hc. by constructor.
Qed.

Lemma set_default_accepted (key : string) (value : Value) (force : option bool)
  (w : World) :
  truthy force = false →
  hasChangedFunctions (registry w) !! key = None →
  defaultHasChanged value (stored key w) = true →
  accepted key value force w (ext w).
Proof.
  intros Hforce Hnone Hc. right. split; [done|]. rewrite <- Hc. by constructor.
Qed.

(** Within the scope of the model, after an accepted call on a key other
    than [__proto__] the key is an own property holding the value. *)
Lemma set_accepted_stored (key : string) (value : Value) (force : option bool)
  (w : World) (x : Ext) (c : Completion unit) (w' : World) :
  key ≠ "__proto__" →
  accepted key value force w x →
  set key value force w = (c, w') →
  stored key w' = value ∧ get key None w' = value.
Proof.
  intros Hkey Hacc Hset.
  destruct (set_accepted_log _ _ _ _ _ _ _ Hacc Hset) as [Hreg _].
  unfold stored, get. rewrite Hreg. simpl.
  by rewrite obj_set_has, !obj_set_get.
Qed.

End SetOutcome.

(** ** The subscriber table *)

Section MapFacts.
Context {K : Type} `{EqDecision K} {V : Type}.
Implicit Types (m : list (K * V)) (k : K) (v : V).

Lemma Map_get_set_eq m k v : Map_get (Map_set m k v) k = Some v.
Proof.
  induction m as [|[k' v'] m IH]; simpl.
  - by rewrite decide_True.
  - destruct (decide (k' = k)); simpl.
    + by rewrite decide_True.
    + by rewrite decide_False.
Qed.

Lemma Map_set_same m k v : Map_get m k = Some v → Map_set m k v = m.
Proof.
  induction m as [|[k' v'] m IH]; simpl; [done|].
  destruct (decide (k' = k)) as [->|].
  - by intros [= ->].
  - intros Hget. by rewrite IH.
Qed.

Lemma elem_of_Map_set m k v (entry : K * V) :
  entry ∈ Map_set m k v → entry = (k, v) ∨ entry ∈ m.
Proof.
  induction m as [|[k' v'] m IH]; simpl.
  - intros ->%list_elem_of_singleton. by left.
  - destruct (decide (k' = k)).
    + intros [->|?]%elem_of_cons; [by left|]. right. by apply elem_of_cons; right.
    + intros [->|[->|?]%IH]%elem_of_cons.
      * right. apply elem_of_cons. by left.
      * by left.
      * right. apply elem_of_cons. by right.
Qed.

Lemma elem_of_Map_delete m k (entry : K * V) :
  entry ∈ Map_delete m k → entry ∈ m.
Proof.
  induction m as [|[k' v'] m IH]; simpl; [done|].
  destruct (decide (k' = k)).
  - intros ?. apply elem_of_cons. by right.
  - intros [->|?%IH]%elem_of_cons; apply elem_of_cons; [by left|by right].
Qed.

End MapFacts.

Lemma targets_nonempty_ext (r r' : Registry) :
  requestUpdates r' = requestUpdates r →
  targets_nonempty r → targets_nonempty r'.
Proof. unfold targets_nonempty. intros ->. done. Qed.

Lemma targets_nonempty_initial : targets_nonempty initial.
Proof. intros key elementMap element targets. simpl. by rewrite lookup_empty. Qed.

(** After [register] the element is recorded under the key, with the
    property name among its targets. *)
Lemma register_subscribed (key : string) (element : Element)
  (target : option string) (r : Registry) :
  ∃ elementMap targets,
    requestUpdates (register key element target r) !! key = Some elementMap
    ∧ Map_get elementMap element = Some targets
    ∧ target_name key target ∈ targets.
Proof.
  unfold register. fold (target_name key target).
  set (r1 := if bool_decide _ then r else _).
  destruct (Map_get (default [] (requestUpdates r1 !! key)) element)
    as [targets|] eqn:Hget.
  - destruct (Array_includes targets (target_name key target)) eqn:Hinc.
    + apply bool_decide_eq_true in Hinc.
      destruct (requestUpdates r1 !! key) as [em|] eqn:Hem; [|done].
      by exists em, targets.
    + eexists _, _. simpl. rewrite lookup_insert_eq, Map_get_set_eq.
      split_and!; try done. unfold Array_push. set_solver.
  - eexists _, _. simpl. rewrite lookup_insert_eq, Map_get_set_eq.
    split_and!; try done. set_solver.
Qed.

(** [register] changes nothing when the subscription is there. *)
Lemma register_present (key : string) (element : Element)
  (target : option string) (r : Registry) (elementMap : list (Element * list string))
  (targets : list string) :
  requestUpdates r !! key = Some elementMap →
  Map_get elementMap element = Some targets →
  target_name key target ∈ targets →
  register key element target r = r.
Proof.
  intros Hem Hget Hin. unfold register. fold (target_name key target).
  rewrite bool_decide_eq_true_2 by (by rewrite Hem).
  rewrite Hem. simpl. rewrite Hget.
  unfold Array_includes. by rewrite bool_decide_eq_true_2.
Qed.

Lemma register_targets_nonempty (key : string) (element : Element)
  (target : option string) (r : Registry) :
  targets_nonempty r → targets_nonempty (register key element target r).
Proof.
  intros Hr. unfold register. fold (target_name key target).
  set (r1 := if bool_decide _ then r else _).
  assert (Hr1 : targets_nonempty r1).
  { subst r1. case_bool_decide; [done|].
    intros k em e ts. simpl. intros [[<- <-]|[_ Hk]]%lookup_insert_Some.
    - by intros ?%elem_of_nil.
    - intros ?. by eapply Hr. }
  assert (Hem : ∀ e ts, (e, ts) ∈ default [] (requestUpdates r1 !! key) → ts ≠ []).
  { intros e ts. destruct (requestUpdates r1 !! key) as [em|] eqn:Hem; simpl.
    - intros ?. by eapply Hr1.
    - by intros ?%elem_of_nil. }
  assert (Hset : ∀ ts0, ts0 ≠ [] →
    targets_nonempty
      (with_requestUpdates
         (<[key := Map_set (default [] (requestUpdates r1 !! key)) element ts0]>
            (requestUpdates r1)) r1)).
  { intros ts0 Hts0 k em e ts. simpl.
    intros [[<- <-]|[_ Hk]]%lookup_insert_Some.
    - intros [[= -> ->]|?]%elem_of_Map_set; [done|by eapply Hem].
    - intros ?. by eapply Hr1. }
  destruct (Map_get _ element) as [targets|]; [|by apply Hset].
  destruct (Array_includes targets _); [done|].
  apply Hset. unfold Array_push. by destruct targets.
Qed.

Lemma unregister_targets_nonempty (key : string) (element : Element)
  (r : Registry) :
  targets_nonempty r → targets_nonempty (unregister key element r).
Proof.
  intros Hr. unfold unregister.
  destruct (requestUpdates r !! key) as [elementMap|] eqn:Hem; [|done].
  intros k em e ts. simpl. intros [[<- <-]|[_ Hk]]%lookup_insert_Some.
  - intros ?%elem_of_Map_delete. by eapply Hr.
  - intros ?. by eapply Hr.
Qed.

Lemma unregisterElement_targets_nonempty (element : Element) (r : Registry) :
  targets_nonempty r → targets_nonempty (unregisterElement element r).
Proof.
  unfold unregisterElement. generalize ((map_to_list (requestUpdates r)).*1).
  intros keys. revert r. induction keys as [|key keys IH]; intros r Hr; [done|].
  simpl. apply IH. by apply unregister_targets_nonempty.
Qed.

(** ** Reading and writing values *)

Section Values.
Context {host : Host}.

Lemma get_absent_key (key : string) (d : option Value) (w : World) :
  obj_has (heap_chain (ext w)) (values (registry w)) key = false →
  get key d w = optional d.
Proof. intros Hhas. unfold get. by rewrite Hhas. Qed.

(** As long as [values] is the object [{}] it was created as, every key
    that [Object.prototype] does not define reads as the default. *)
Lemma get_fresh_ordinary_key (key : string) (d : option Value) (w : World) :
  values (registry w) = empty_object →
  key ≠ "__proto__" → key ∉ ObjectPrototype_methods →
  get key d w = optional d.
Proof.
  intros Hvalues Hproto Hmethod. apply get_absent_key.
  rewrite Hvalues, obj_has_empty_object.
  apply bool_decide_eq_false_2. by intros [|].
Qed.

(** Writing [undefined] to a key that is not [in] the [values] object
    changes nothing and fires nothing. *)
Lemma set_undefined_absent_key (key : string) (w : World) :
  obj_has (heap_chain (ext w)) (values (registry w)) key = false →
  hasChangedFunctions (registry w) !! key = None →
  set key VUndefined None w = (Normal (), w).
Proof.
  intros Hhas Hnone. apply set_default_unchanged; [done..|].
  unfold stored. by rewrite obj_has_false_get.
Qed.

(** C1 (the code departs from the claim): a key inherited from
    [Object.prototype] is found by [key in this.values] although nothing
    was ever set.  On the initial registry [get("toString", d)] returns
    the built-in function [Object.prototype.toString] whatever the
    default [d] is, also when no default is given. *)
Theorem get_inherited_key_ignores_default (x : Ext) (d : option Value) :
  get "toString" d {| registry := initial; ext := x; log := [] |}
  = VObject (BuiltinRef "toString").
Proof. reflexivity. Qed.

(** C10 (the code departs from the claim): on the initial registry with
    one listener added for the key [toString], on which nothing was ever
    set and which has no custom equality function, [set("toString",
    undefined)] is accepted, because the old value read through the
    prototype chain is the built-in function.  The listener is called
    with [undefined] and that function, the key becomes an own property
    holding [undefined], and [get("toString", d)] returns [undefined]
    for every default [d]. *)
Theorem set_undefined_on_inherited_key (x : Ext) (listener : Listener) :
  let w := {| registry := addListener "toString" listener initial;
              ext := x; log := [] |} in
  let w' := (set "toString" VUndefined None w).2 in
  log w' = [ListenerCall listener VUndefined (VObject (BuiltinRef "toString"))]
  ∧ own (values (registry w')) !! "toString" = Some VUndefined
  ∧ ∀ d, get "toString" d w' = VUndefined.
Proof.
  intros w w'. subst w'.
  assert (Hacc : accepted "toString" VUndefined None w x).
  { right. split; [done|]. by apply (default_equality "toString" VUndefined w). }
  rewrite (set_accepted _ _ _ _ _ Hacc). cbv zeta.
  change (listeners_of "toString" (registry w)) with [listener].
  change (subscriptions_of "toString" (registry w))
    with (@nil (Element * string)).
  change (stored "toString" w) with (VObject (BuiltinRef "toString")).
  simpl.
  destruct (listener_body listener VUndefined _ x) as [[[]|exn] x'];
    simpl; split_and!; try done.
Qed.


(** An accepted call that has recorded no call has returned, and there
    was nobody to call for the key. *)
Lemma set_accepted_silent (key : string) (value : Value) (force : option bool)
  (w : World) (x : Ext) (c : Completion unit) (w' : World) :
  accepted key value force w x →
  set key value force w = (c, w') →
  log w' = log w →
  c = Normal ()
  ∧ w' = after_store key value x w
  ∧ listeners_of key (registry w) = []
  ∧ subscriptions_of key (registry w) = [].
Proof.
  intros Hacc. rewrite (set_accepted _ _ _ _ _ Hacc). cbv zeta.
  destruct (listeners_of key (registry w)) as [|l ls].
  - simpl. destruct (subscriptions_of key (registry w)) as [|p ps].
    + simpl. intros [= <- <-] _. split_and!; try done.
      unfold after_store. by rewrite !app_nil_r.
    + destruct (run_calls_nonempty
                  (λ '(element, target),
                     element_requestUpdate element target
                       (hint_of force (stored key w))) p ps x) as [rest Hrest].
      destruct (run_calls _ (p :: ps) x) as [[c2 x2] requested].
      simpl in Hrest. subst requested.
      intros [= _ <-]. simpl. intros Hlog.
      rewrite <- (app_nil_r (log w)) in Hlog at 2.
      by apply app_inv_head in Hlog.
  - destruct (run_calls_nonempty
                (λ listener, listener_body listener value (stored key w))
                l ls x) as [rest Hrest].
    destruct (run_calls _ (l :: ls) x) as [[c1 x1] called].
    simpl in Hrest. subst called.
    assert (∀ tail, log w ++ listener_calls value (stored key w) (l :: rest)
                      ++ tail ≠ log w) as Hne.
    { intros tail Hlog. rewrite <- (app_nil_r (log w)) in Hlog at 2.
      by apply app_inv_head in Hlog. }
    destruct c1 as [[]|exn].
    + destruct (run_calls _ (subscriptions_of key (registry w)) x1)
        as [[c2 x2] requested].
      intros [= _ <-]. simpl. intros Hlog. by destruct (Hne _ Hlog).
    + intros [= _ <-]. simpl. intros Hlog.
      destruct (Hne []). by rewrite app_nil_r.
Qed.


End Values.

(** ** Change detection and notification *)

Section Notification.
Context {host : Host}.

(** Within the scope of the model, [set] touches no map of the registry
    but [values]. *)
Lemma set_registry_frame (key : string) (value : Value) (force : option bool)
  (w : World) (c : Completion unit) (w' : World) :
  set key value force w = (c, w') →
  requestUpdates (registry w') = requestUpdates (registry w)
  ∧ hasChangedFunctions (registry w') = hasChangedFunctions (registry w)
  ∧ listeners (registry w') = listeners (registry w).
Proof.
  intros Hset.
  destruct (set_cases key value force w)
    as [[x Hacc]|[(x & _ & _ & Heq)|(exn & x & _ & _ & Heq)]].
  - destruct (set_accepted_log _ _ _ _ _ _ _ Hacc Hset) as [-> _]. done.
  - rewrite Heq in Hset. by injection Hset as <- <-.
  - rewrite Heq in Hset. by injection Hset as <- <-.
Qed.

Lemma set_NaN_stored (key : string) (w : World) (c : Completion unit)
  (w' : World) :
  key ≠ "__proto__" →
  hasChangedFunctions (registry w) !! key = None →
  set key NaN None w = (c, w') →
  stored key w' = NaN.
Proof.
  intros Hkey Hnone Hset.
  destruct (defaultHasChanged NaN (stored key w)) eqn:Hc.
  - eapply set_accepted_stored; [done| |done]. by apply set_default_accepted.
  - rewrite set_default_unchanged in Hset by done. injection Hset as <- <-.
    apply defaultHasChanged_false in Hc as [Hc|[_ Hc]].
    + by rewrite strict_equals_NaN_l in Hc.
    + by apply is_NaN_true.
Qed.

(** The default equality reports a change exactly when the two values
    are not strictly equal and are not both [NaN].  Hence, for a key
    without a custom equality function that [set] stores as an own
    property, that is every key but [__proto__]: [set(k, NaN)] followed
    by [set(k, NaN)] makes no call at all in the second [set], and
    [set(k, NaN)] followed by [set(k, 1)] makes the second [set] call the
    listeners of [k] with [(1, NaN)]: the first one in any case, and all
    of them, followed by all update requests, when the call returns. *)
Lemma default_equality_NaN :
  (∀ value oldValue,
     defaultHasChanged value oldValue = true
     ↔ strict_equals value oldValue = false
       ∧ ¬ (is_NaN value = true ∧ is_NaN oldValue = true))
  ∧ (∀ key w c1 w1,
       key ≠ "__proto__" →
       hasChangedFunctions (registry w) !! key = None →
       set key NaN None w = (c1, w1) →
       set key NaN None w1 = (Normal (), w1))
  ∧ (∀ key w c1 w1 c2 w2,
       key ≠ "__proto__" →
       hasChangedFunctions (registry w) !! key = None →
       set key NaN None w = (c1, w1) →
       set key (VNumber number_one) None w1 = (c2, w2) →
       ∃ called requested,
         log w2 = log w1 ++ listener_calls (VNumber number_one) NaN called
                         ++ update_requests NaN requested
         ∧ (∀ l rest, listeners_of key (registry w1) = l :: rest →
                      ∃ rest', called = l :: rest')
         ∧ (c2 = Normal () →
            called = listeners_of key (registry w1)
            ∧ requested = subscriptions_of key (registry w1))).
Proof.
  split_and!.
  - intros value oldValue. rewrite defaultHasChanged_formula.
    destruct (strict_equals value oldValue), (is_NaN value), (is_NaN oldValue);
      simpl; split; try done; try (by intros [? ?]); try (by intros _; split; [|intros [? ?]]).
    all: intros [_ H]; exfalso; by apply H.
  - intros key w c1 w1 Hkey Hnone Hset.
    pose proof (set_NaN_stored _ _ _ _ Hkey Hnone Hset) as Hstored.
    destruct (set_registry_frame _ _ _ _ _ _ Hset) as (_ & Hfun & _).
    apply set_default_unchanged; [done|by rewrite Hfun|].
    by rewrite Hstored.
  - intros key w c1 w1 c2 w2 Hkey Hnone Hset1 Hset2.
    pose proof (set_NaN_stored _ _ _ _ Hkey Hnone Hset1) as Hstored.
    destruct (set_registry_frame _ _ _ _ _ _ Hset1) as (_ & Hfun & _).
    assert (Hacc : accepted key (VNumber number_one) None w1 (ext w1)).
    { apply set_default_accepted; [done|by rewrite Hfun|by rewrite Hstored]. }
    destruct (set_accepted_log _ _ _ _ _ _ _ Hacc Hset2)
      as (_ & called & requested & Hlog & _ & _ & _ & Hall & Hhead).
    exists called, requested. rewrite Hstored in Hlog. done.
Qed.

(** C3 (the code departs from the claim): the formula of the default
    equality is the one of the claim and the two sequences hold for
    every other key (lemma [default_equality_NaN]), but not for the key
    [__proto__].  The assignment [this.values["__proto__"] = NaN] runs
    the setter inherited from [Object.prototype], which ignores a number,
    so the second [set("__proto__", NaN)] compares [NaN] with
    [Object.prototype] again and calls the listener a second time. *)
Theorem set_NaN_twice_on_proto_key (x : Ext) (listener : Listener) :
  let w := {| registry := addListener "__proto__" listener initial;
              ext := x; log := [] |} in
  let w1 := (set "__proto__" NaN None w).2 in
  let w2 := (set "__proto__" NaN None w1).2 in
  stored "__proto__" w1 = VObject ObjectPrototypeRef
  ∧ log w1 = [ListenerCall listener NaN (VObject ObjectPrototypeRef)]
  ∧ log w2 = log w1 ++ [ListenerCall listener NaN (VObject ObjectPrototypeRef)].
Proof.
  intros w w1 w2.
  assert (Hset : ∀ x' events,
    let w0 := {| registry := addListener "__proto__" listener initial;
                 ext := x'; log := events |} in
    registry (set "__proto__" NaN None w0).2 = registry w0
    ∧ log (set "__proto__" NaN None w0).2
      = events ++ [ListenerCall listener NaN (VObject ObjectPrototypeRef)]).
  { intros x' events w0.
    assert (Hacc : accepted "__proto__" NaN None w0 x').
    { right. split; [done|]. by apply (default_equality "__proto__" NaN w0). }
    rewrite (set_accepted _ _ _ _ _ Hacc). cbv zeta.
    change (listeners_of "__proto__" (registry w0)) with [listener].
    change (subscriptions_of "__proto__" (registry w0))
      with (@nil (Element * string)).
    change (stored "__proto__" w0) with (VObject ObjectPrototypeRef).
    simpl.
    destruct (listener_body listener NaN _ x') as [[[]|exn] x'']; simpl;
      split; try done; by rewrite ?app_nil_r. }
  destruct (Hset x []) as [Hreg1 Hlog1]. fold w w1 in Hreg1, Hlog1.
  split_and!.
  - unfold stored. by rewrite Hreg1.
  - done.
  - subst w2. destruct w1 as [r1 x1 l1]. simpl in Hreg1, Hlog1. subst r1.
    by destruct (Hset x1 l1) as [_ ->].
Qed.

(** C4: when [force] is not [true] and the equality function in effect
    for the key reports no change, [set] returns and has done nothing:
    the registry (the stored values and the three maps) is the same, and
    no listener call and no update request was made.  The host state is
    the one the equality function left; with the default equality the
    whole world is unchanged. *)
Theorem set_unchanged_no_effect (key : string) (value : Value)
  (force : option bool) (w : World) (x : Ext) :
  force ≠ Some true →
  equality_reports key value w (Normal false) x →
  ∃ w', set key value force w = (Normal (), w')
        ∧ registry w' = registry w
        ∧ log w' = log w
        ∧ ext w' = x
        ∧ (hasChangedFunctions (registry w) !! key = None → w' = w).
Proof.
  intros Hforce Heq.
  assert (truthy force = false) by (by destruct force as [[]|]).
  exists (with_ext x w). split_and!; try done.
  - by apply set_unchanged.
  - intros Hnone.
    destruct (equality_reports_default _ _ _ _ _ Hnone Heq) as [_ ->].
    apply with_ext_same.
Qed.

(** C5: the calls of one [set] are listener calls for the key, each with
    the new and the old value, followed by update requests for the key.
    As soon as one update request is made, every listener registered for
    the key has been called; and an accepted call that returns has called
    every listener and then requested every update. *)
Theorem set_listeners_before_updates (key : string) (value : Value)
  (force : option bool) (w : World) (c : Completion unit) (w' : World) :
  set key value force w = (c, w') →
  ∃ called requested,
    log w' = log w ++ listener_calls value (stored key w) called
                   ++ update_requests (hint_of force (stored key w)) requested
    ∧ called `prefix_of` listeners_of key (registry w)
    ∧ requested `prefix_of` subscriptions_of key (registry w)
    ∧ (requested ≠ [] → called = listeners_of key (registry w))
    ∧ (∀ x, accepted key value force w x → c = Normal () →
            called = listeners_of key (registry w)
            ∧ requested = subscriptions_of key (registry w)).
Proof.
  intros Hset.
  destruct (set_cases key value force w)
    as [[x Hacc]|[(x & Hforce & Hrep & Heq)|(exn & x & Hforce & Hrep & Heq)]].
  - destruct (set_accepted_log _ _ _ _ _ _ _ Hacc Hset)
      as (_ & called & requested & Hlog & Hpre & Hpre' & Hbefore & Hall & _).
    exists called, requested. split_and!; try done.
  - rewrite Heq in Hset. injection Hset as <- <-.
    exists [], []. simpl. rewrite app_nil_r.
    split_and!; try done; try apply prefix_nil.
    intros x' [[Ht _]|[_ Hrep']] _; [congruence|].
    exfalso. inversion Hrep; inversion Hrep'; congruence.
  - rewrite Heq in Hset. injection Hset as <- <-.
    exists [], []. simpl. rewrite app_nil_r.
    split_and!; try done; apply prefix_nil.
Qed.

(** C6: an exception thrown by the equality function leaves [set] with
    that exception before anything is stored or called; an exception
    thrown by a listener leaves [set] with that exception after the
    calls of the listeners up to the throwing one, so that the listeners
    after it are not called and no update request is made. *)
Theorem set_propagates_exceptions (key : string) (value : Value)
  (force : option bool) (w : World) :
  (∀ exn x,
     truthy force = false →
     equality_reports key value w (Throw exn) x →
     set key value force w = (Throw exn, with_ext x w))
  ∧ (∀ x before listener after x1 exn x2,
       accepted key value force w x →
       listeners_of key (registry w) = before ++ listener :: after →
       run_calls (λ l, listener_body l value (stored key w)) before x
       = (Normal (), x1, before) →
       listener_body listener value (stored key w) x1 = (Throw exn, x2) →
       ∃ w', set key value force w = (Throw exn, w')
             ∧ log w' = log w ++ listener_calls value (stored key w)
                                   (before ++ [listener])
             ∧ ext w' = x2).
Proof.
  split.
  - intros exn x Hforce Heq. by apply set_equality_throws.
  - intros x before listener after x1 exn x2 Hacc Hlist Hbefore Hthrow.
    rewrite (set_accepted _ _ _ _ _ Hacc). cbv zeta.
    rewrite Hlist, (run_calls_throw _ _ _ _ _ _ _ _ Hbefore Hthrow).
    eexists. split_and!; done.
Qed.

End Notification.

(** ** Subscriptions *)

(** The targets of the element after [register]. *)
Lemma register_targets (key : string) (element : Element)
  (target : option string) (r : Registry) :
  findRequestUpdate key element (register key element target r)
  = Some match findRequestUpdate key element r with
         | Some targets =>
             if Array_includes targets (target_name key target) then targets
             else Array_push targets (target_name key target)
         | None => [target_name key target]
         end.
Proof.
  unfold register, findRequestUpdate. fold (target_name key target).
  destruct (requestUpdates r !! key) as [em|] eqn:Hr; simpl.
  - rewrite Hr. simpl.
    destruct (Map_get em element) as [ts|] eqn:Hts.
    + destruct (Array_includes ts _); simpl.
      * by rewrite Hr.
      * by rewrite lookup_insert_eq, Map_get_set_eq.
    + simpl. by rewrite lookup_insert_eq, Map_get_set_eq.
  - rewrite lookup_insert_eq. simpl. rewrite lookup_insert_eq. simpl.
    by rewrite decide_True.
Qed.

(** C7: no element is ever recorded with an empty list of property
    names.  This holds on the initial registry and is kept by [register],
    [unregister], [unregisterElement], [addListener], [removeListener]
    and by [set], however the call ends; [get] only reads. *)
Theorem targets_nonempty_invariant `{host : Host} (r : Registry) :
  targets_nonempty r →
  (∀ key element target, targets_nonempty (register key element target r))
  ∧ (∀ key element, targets_nonempty (unregister key element r))
  ∧ (∀ element, targets_nonempty (unregisterElement element r))
  ∧ (∀ key listener, targets_nonempty (addListener key listener r))
  ∧ (∀ key listener, targets_nonempty (removeListener key listener r))
  ∧ (∀ key value force x events,
       targets_nonempty
         (registry (set key value force
                      {| registry := r; ext := x; log := events |}).2)).
Proof.
  intros Hr. split_and!.
  - intros. by apply register_targets_nonempty.
  - intros. by apply unregister_targets_nonempty.
  - intros. by apply unregisterElement_targets_nonempty.
  - intros key listener. eapply targets_nonempty_ext; [|done].
    unfold addListener. by case_bool_decide.
  - intros key listener. eapply targets_nonempty_ext; [|done].
    unfold removeListener. by destruct (listeners r !! key).
  - intros key value force x events.
    destruct (set key value force _) as [c w'] eqn:Hset.
    destruct (set_registry_frame _ _ _ _ _ _ Hset) as (Hreq & _ & _).
    by eapply targets_nonempty_ext.
Qed.

(** C8: registering the same key, element and property name a second
    time changes nothing; [register] is a total function of the registry,
    it has no failing case. *)
Theorem register_idempotent (key : string) (element : Element)
  (target : option string) (r : Registry) :
  register key element target (register key element target r)
  = register key element target r.
Proof.
  destruct (register_subscribed key element target r)
    as (elementMap & targets & Hem & Hget & Hin).
  by eapply register_present.
Qed.

(** C9: [register] with the empty string as property name is [register]
    without a property name: the element is subscribed under the name of
    the key.  The empty string is among the element's targets afterwards
    only if it was there before or is the key itself. *)
Theorem register_empty_target (key : string) (element : Element)
  (r : Registry) :
  register key element (Some "") r = register key element None r
  ∧ ∃ targets,
      findRequestUpdate key element (register key element (Some "") r)
      = Some targets
      ∧ key ∈ targets
      ∧ ("" ∈ targets →
         key = ""
         ∨ ∃ targets0, findRequestUpdate key element r = Some targets0
                       ∧ "" ∈ targets0).
Proof.
  split; [done|]. rewrite register_targets. simpl.
  eexists. split; [done|].
  destruct (findRequestUpdate key element r) as [ts|].
  - unfold Array_includes, Array_push. case_bool_decide.
    + split; [done|]. intros ?. right. by exists ts.
    + split; [set_solver|]. intros [?|?%list_elem_of_singleton]%elem_of_app.
      * right. by exists ts.
      * by left.
  - split; [set_solver|]. intros ?%list_elem_of_singleton. by left.
Qed.

(** ** The properties on the concrete host *)

(** The end-to-end scenario: both components and both listeners hear of
    [count] going from nothing to 1, listeners first. *)
Example set_count_on_demo :
  set "count" one None (demo_world demo_registry)
  = (Normal (),
     @mkWorld demo_host
       (with_values
          {| own := {[ "count" := one ]}; prototype := Some ObjectPrototypeRef |}
          demo_registry)
       5%nat
       [ ListenerCall (ListenerId 1) one VUndefined;
         ListenerCall (ListenerId 2) one VUndefined;
         UpdateRequest (ElementId 8) "count" VUndefined;
         UpdateRequest (ElementId 7) "count" VUndefined;
         UpdateRequest (ElementId 7) "total" VUndefined ]).
Proof. vm_compute. reflexivity. Qed.

(** Once an object has been written to [__proto__] it is the prototype
    of [values], and its properties are found under keys that were never
    set. *)
Example get_after_prototype_replaced :
  get "a" (Some VNull)
    (set "__proto__" (VObject (HeapRef 1)) None (demo_world initial)).2
  = VBoolean true.
Proof. vm_compute. reflexivity. Qed.



(** [default_equality_NaN] on the key [count]: the second write of [NaN]
    changes nothing. *)
Example set_NaN_twice_on_count :
  let w1 := (set "count" NaN None (demo_world demo_registry)).2 in
  set "count" NaN None w1 = (Normal (), w1).
Proof.
  refine (proj1 (proj2 (@default_equality_NaN demo_host)) "count"
            (demo_world demo_registry) (Normal ()) _ _ _ _).
  - done.
  - reflexivity.
  - vm_compute. reflexivity.
Qed.

(** [set_unchanged_no_effect] with the equality function that never
    reports a change: only the host has moved, by the one call of that
    function. *)
Lemma set_unchanged_no_effect_witness :
  ∃ w', set "count" one None
          (demo_world (setHasChanged "count" (HasChangedId 0) demo_registry))
        = (Normal (), w')
        ∧ registry w' = setHasChanged "count" (HasChangedId 0) demo_registry
        ∧ log w' = []
        ∧ ext w' = 1%nat
        ∧ (hasChangedFunctions
             (setHasChanged "count" (HasChangedId 0) demo_registry) !! "count"
           = None →
           w' = demo_world (setHasChanged "count" (HasChangedId 0) demo_registry)).
Proof.
  apply (@set_unchanged_no_effect demo_host "count" one None
           (demo_world (setHasChanged "count" (HasChangedId 0) demo_registry))
           1%nat).
  - done.
  - apply (@custom_equality_returns demo_host "count" one
             (demo_world (setHasChanged "count" (HasChangedId 0) demo_registry))
             (HasChangedId 0) (VBoolean false) 1%nat);
      reflexivity.
Defined.

(** [set_listeners_before_updates] on the accepted write of 1 to
    [count]. *)
Lemma set_listeners_before_updates_witness :
  ∃ called requested,
    log (set "count" one None (demo_world demo_registry)).2
    = [] ++ listener_calls one VUndefined called
         ++ update_requests VUndefined requested
    ∧ called `prefix_of` [ListenerId 1; ListenerId 2]
    ∧ requested `prefix_of`
        [(ElementId 8, "count"); (ElementId 7, "count"); (ElementId 7, "total")]
    ∧ (requested ≠ [] → called = [ListenerId 1; ListenerId 2])
    ∧ (∀ x, accepted "count" one None (demo_world demo_registry) x →
            Normal () = Normal () →
            called = [ListenerId 1; ListenerId 2]
            ∧ requested =
                [(ElementId 8, "count"); (ElementId 7, "count");
                 (ElementId 7, "total")]).
Proof.
  apply (@set_listeners_before_updates demo_host "count" one
           None (demo_world demo_registry) (Normal ())
           (set "count" one None (demo_world demo_registry)).2).
  vm_compute. reflexivity.
Defined.

(** [set_propagates_exceptions] with the throwing listener 13 between
    listeners 1, 2 and listener 3: the call ends with the exception after
    three listener calls. *)
Lemma set_propagates_exceptions_witness :
  ∃ w', set "count" one None
          (demo_world (addListener "count" (ListenerId 3)
                         (addListener "count" (ListenerId 13) demo_registry)))
        = (Throw (VString "listener failed"), w')
        ∧ log w' = [] ++ listener_calls one VUndefined
                           ([ListenerId 1; ListenerId 2] ++ [ListenerId 13])
        ∧ ext w' = 3%nat.
Proof.
  apply (proj2 (@set_propagates_exceptions demo_host "count" one None
                  (demo_world (addListener "count" (ListenerId 3)
                     (addListener "count" (ListenerId 13) demo_registry))))
           0%nat [ListenerId 1; ListenerId 2] (ListenerId 13) [ListenerId 3]
           2%nat (VString "listener failed") 3%nat).
  - right. split; [done|].
    apply (@default_equality demo_host "count" one
             (demo_world (addListener "count" (ListenerId 3)
                (addListener "count" (ListenerId 13) demo_registry)))).
    reflexivity.
  - reflexivity.
  - reflexivity.
  - reflexivity.
Defined.

(** [targets_nonempty_invariant] on the registry of the scenario. *)
Lemma targets_nonempty_invariant_witness :
  (∀ key element target,
     targets_nonempty (register key element target demo_registry))
  ∧ (∀ key element, targets_nonempty (unregister key element demo_registry))
  ∧ (∀ element, targets_nonempty (unregisterElement element demo_registry))
  ∧ (∀ key listener, targets_nonempty (addListener key listener demo_registry))
  ∧ (∀ key listener,
       targets_nonempty (removeListener key listener demo_registry))
  ∧ (∀ key value force x events,
       targets_nonempty
         (registry (set key value force
                      (@mkWorld demo_host demo_registry x events)).2)).
Proof.
  apply (@targets_nonempty_invariant demo_host demo_registry).
  apply (targets_nonempty_ext
           (register "count" (ElementId 7) (Some "total")
              (register "count" (ElementId 7) None
                 (register "count" (ElementId 8) None initial)))).
  - vm_compute. reflexivity.
  - repeat apply register_targets_nonempty. apply targets_nonempty_initial.
Defined.

(** ** More on [Map]s and [Set]s *)

Section CollectionFacts.
Context {K : Type} `{EqDecision K} {V : Type}.
Implicit Types (m : list (K * V)) (s : list K) (k : K) (v : V).

Lemma Map_get_None m k : Map_get m k = None ↔ k ∉ m.*1.
Proof.
  induction m as [|[k' v'] m IH]; simpl.
  - split; [intros _; apply not_elem_of_nil|done].
  - destruct (decide (k' = k)) as [->|Hne].
    + split; [done|]. intros []. by left.
    + rewrite IH, not_elem_of_cons. split; [by split|by intros [_ ?]].
Qed.

Lemma Map_get_Some_elem m k v : Map_get m k = Some v → (k, v) ∈ m.
Proof.
  induction m as [|[k' v'] m IH]; simpl; [done|].
  destruct (decide (k' = k)) as [->|Hne].
  - intros [= ->]. by left.
  - intros ?. right. by apply IH.
Qed.

Lemma Map_get_elem m k v : NoDup m.*1 → (k, v) ∈ m → Map_get m k = Some v.
Proof.
  induction m as [|[k' v'] m IH]; simpl.
  - by intros _ ?%elem_of_nil.
  - intros [Hk' Hm]%NoDup_cons [[= -> ->]|Hin]%elem_of_cons.
    + by rewrite decide_True.
    + rewrite decide_False; [by apply IH|].
      intros ->. apply Hk'. apply list_elem_of_fmap. by exists (k, v).
Qed.

Lemma Map_get_set_ne m k k' v :
  k' ≠ k → Map_get (Map_set m k v) k' = Map_get m k'.
Proof.
  intros Hne. induction m as [|[k0 v0] m IH]; simpl.
  - by rewrite decide_False.
  - destruct (decide (k0 = k)) as [->|]; simpl.
    + by rewrite !decide_False.
    + by rewrite IH.
Qed.

Lemma Map_set_keys m k v :
  (Map_set m k v).*1 = if decide (k ∈ m.*1) then m.*1 else m.*1 ++ [k].
Proof.
  induction m as [|[k' v'] m IH]; [done|].
  cbn [Map_set]. rewrite !fmap_cons. cbn [fst].
  destruct (decide (k' = k)) as [->|Hne].
  - rewrite fmap_cons. cbn [fst]. rewrite decide_True; [done|by left].
  - rewrite fmap_cons, IH. cbn [fst].
    destruct (decide (k ∈ m.*1)) as [Hin|Hin].
    + rewrite decide_True; [done|by right].
    + rewrite decide_False; [done|].
      intros [->|?]%elem_of_cons; done.
Qed.

Lemma Map_set_NoDup m k v : NoDup m.*1 → NoDup (Map_set m k v).*1.
Proof.
  intros Hm. rewrite Map_set_keys. case_decide; [done|].
  apply NoDup_app. split_and!; [done| |apply NoDup_singleton].
  intros x Hx ->%list_elem_of_singleton. done.
Qed.

Lemma Map_delete_absent m k : k ∉ m.*1 → Map_delete m k = m.
Proof.
  induction m as [|[k' v'] m IH]; simpl; [done|].
  intros [Hne Hk]%not_elem_of_cons.
  rewrite decide_False by done. by rewrite IH.
Qed.

Lemma filter_ne_absent s k : k ∉ s → filter (λ k', k' ≠ k) s = s.
Proof.
  induction s as [|k' s IH]; [done|].
  intros [Hne Hk]%not_elem_of_cons.
  rewrite filter_cons_True by done. by rewrite IH.
Qed.

Lemma Map_delete_keys m k :
  NoDup m.*1 → (Map_delete m k).*1 = filter (λ k', k' ≠ k) m.*1.
Proof.
  induction m as [|[k' v'] m IH]; [done|].
  rewrite fmap_cons. cbn [fst Map_delete].
  intros [Hk' Hm]%NoDup_cons.
  destruct (decide (k' = k)) as [->|Hne].
  - rewrite filter_cons_False by (by intros []).
    by rewrite filter_ne_absent.
  - rewrite filter_cons_True by done. rewrite fmap_cons. cbn [fst].
    by rewrite IH.
Qed.

Lemma Map_delete_NoDup m k : NoDup m.*1 → NoDup (Map_delete m k).*1.
Proof. intros Hm. rewrite Map_delete_keys by done. by apply NoDup_filter. Qed.

Lemma Map_get_delete m k k' :
  NoDup m.*1 →
  Map_get (Map_delete m k) k' = if decide (k' = k) then None else Map_get m k'.
Proof.
  intros Hm. induction m as [|[k0 v0] m IH]; simpl.
  - by case_decide.
  - apply NoDup_cons in Hm as [Hk0 Hm].
    destruct (decide (k0 = k)) as [->|Hne]; simpl.
    + destruct (decide (k' = k)) as [->|Hne'].
      * by apply Map_get_None.
      * by rewrite decide_False.
    + destruct (decide (k0 = k')) as [->|Hne'].
      * by rewrite decide_False.
      * by apply IH.
Qed.

Lemma Set_add_NoDup s k : NoDup s → NoDup (Set_add s k).
Proof.
  intros Hs. unfold Set_add, Set_has. case_bool_decide; [done|].
  apply NoDup_app. split_and!; [done| |apply NoDup_singleton].
  intros x Hx ->%list_elem_of_singleton. done.
Qed.

Lemma Set_delete_absent s k : k ∉ s → Set_delete s k = s.
Proof.
  induction s as [|k' s IH]; simpl; [done|].
  intros [Hne Hk]%not_elem_of_cons.
  rewrite decide_False by done. by rewrite IH.
Qed.

Lemma Set_delete_filter s k :
  NoDup s → Set_delete s k = filter (λ k', k' ≠ k) s.
Proof.
  induction s as [|k' s IH]; simpl; [done|].
  intros [Hk' Hs]%NoDup_cons.
  destruct (decide (k' = k)) as [->|Hne].
  - rewrite filter_cons_False by (by intros []).
    by rewrite filter_ne_absent.
  - rewrite filter_cons_True by done. by rewrite IH.
Qed.

End CollectionFacts.

(** ** The subscriber table after each operation *)

Lemma well_formed_ext (r r' : Registry) :
  requestUpdates r' = requestUpdates r →
  listeners r' = listeners r →
  well_formed r → well_formed r'.
Proof. unfold well_formed. by intros -> ->. Qed.

Lemma well_formed_initial : well_formed initial.
Proof.
  split_and!; intros key; intros *; simpl; by rewrite lookup_empty.
Qed.

(** The entry of the key after [register]; every other key keeps its
    entry. *)
Lemma register_requestUpdates (key : string) (element : Element)
  (target : option string) (r : Registry) :
  requestUpdates (register key element target r)
  = <[key :=
        let elementMap := default [] (requestUpdates r !! key) in
        match Map_get elementMap element with
        | None => Map_set elementMap element [target_name key target]
        | Some targets =>
            if Array_includes targets (target_name key target) then elementMap
            else Map_set elementMap element
                   (Array_push targets (target_name key target))
        end]> (requestUpdates r).
Proof.
  unfold register. fold (target_name key target). cbv zeta.
  destruct (requestUpdates r !! key) as [em|] eqn:Hr.
  - rewrite bool_decide_eq_true_2 by eauto. rewrite Hr. simpl.
    destruct (Map_get em element) as [ts|]; [|done].
    destruct (Array_includes ts _); [|done].
    by rewrite insert_id.
  - rewrite bool_decide_eq_false_2 by (by intros [? ?]). simpl.
    rewrite lookup_insert_eq. simpl. by rewrite insert_insert_eq.
Qed.

Lemma register_other_fields (key : string) (element : Element)
  (target : option string) (r : Registry) :
  values (register key element target r) = values r
  ∧ hasChangedFunctions (register key element target r) = hasChangedFunctions r
  ∧ listeners (register key element target r) = listeners r.
Proof.
  unfold register. cbv zeta.
  case_bool_decide; simpl;
    destruct (Map_get _ element); simpl; try done;
    by destruct (Array_includes _ _).
Qed.

Lemma unregister_requestUpdates (key : string) (element : Element)
  (r : Registry) :
  requestUpdates (unregister key element r)
  = alter (λ elementMap, Map_delete elementMap element) key (requestUpdates r).
Proof.
  unfold unregister. apply map_eq. intros k. rewrite lookup_alter.
  destruct (requestUpdates r !! key) as [em|] eqn:Hr; simpl.
  - destruct (decide (key = k)) as [<-|Hne].
    + by rewrite lookup_insert_eq, ?Hr.
    + by rewrite lookup_insert_ne.
  - destruct (decide (key = k)) as [<-|Hne]; [by rewrite ?Hr|done].
Qed.

Lemma unregister_other_fields (key : string) (element : Element)
  (r : Registry) :
  values (unregister key element r) = values r
  ∧ hasChangedFunctions (unregister key element r) = hasChangedFunctions r
  ∧ listeners (unregister key element r) = listeners r.
Proof. unfold unregister. by destruct (requestUpdates r !! key). Qed.

(** [unregisterElement] deletes the element from the map of every key. *)
Lemma unregisterElement_fold (element : Element) (keys : list string)
  (r : Registry) :
  NoDup keys →
  let r' := foldl (λ acc key, unregister key element acc) r keys in
  (∀ k, requestUpdates r' !! k
        = if decide (k ∈ keys)
          then (λ elementMap, Map_delete elementMap element)
                 <$> requestUpdates r !! k
          else requestUpdates r !! k)
  ∧ values r' = values r
  ∧ hasChangedFunctions r' = hasChangedFunctions r
  ∧ listeners r' = listeners r.
Proof.
  revert r. induction keys as [|key keys IH]; intros r Hnodup; simpl.
  { split_and!; try done. }
  apply NoDup_cons in Hnodup as [Hkey Hkeys].
  destruct (IH (unregister key element r) Hkeys) as (Hlookup & Hv & Hf & Hl).
  destruct (unregister_other_fields key element r) as (Hv' & Hf' & Hl').
  split_and!; try congruence.
  intros k. rewrite Hlookup, unregister_requestUpdates, lookup_alter.
  destruct (decide (key = k)) as [<-|Hne].
  - rewrite decide_False by done. rewrite decide_True by (by left). done.
  - destruct (decide (k ∈ keys)) as [Hin|Hin].
    + rewrite decide_True by (by right). done.
    + rewrite decide_False; [done|]. by intros [->|?]%elem_of_cons.
Qed.

Lemma unregisterElement_requestUpdates (element : Element) (r : Registry) :
  requestUpdates (unregisterElement element r)
  = (λ elementMap, Map_delete elementMap element) <$> requestUpdates r.
Proof.
  unfold unregisterElement.
  destruct (unregisterElement_fold element (map_to_list (requestUpdates r)).*1 r)
    as [Hlookup _]; [apply NoDup_fst_map_to_list|].
  apply map_eq. intros k. rewrite Hlookup, lookup_fmap.
  case_decide as Hin; [done|].
  destruct (requestUpdates r !! k) as [em|] eqn:Hk; [|done].
  exfalso. apply Hin. apply list_elem_of_fmap. exists (k, em).
  split; [done|]. by apply elem_of_map_to_list.
Qed.

Lemma unregisterElement_other_fields (element : Element) (r : Registry) :
  values (unregisterElement element r) = values r
  ∧ hasChangedFunctions (unregisterElement element r) = hasChangedFunctions r
  ∧ listeners (unregisterElement element r) = listeners r.
Proof.
  unfold unregisterElement.
  by destruct (unregisterElement_fold element
                 (map_to_list (requestUpdates r)).*1 r)
    as [_ ?]; [apply NoDup_fst_map_to_list|].
Qed.

Lemma well_formed_entry (key : string) (r : Registry) :
  well_formed r →
  NoDup (default [] (requestUpdates r !! key)).*1
  ∧ ∀ element targets,
      (element, targets) ∈ default [] (requestUpdates r !! key) → NoDup targets.
Proof.
  intros (Hkeys & Htargets & _).
  destruct (requestUpdates r !! key) as [em|] eqn:Hr; simpl.
  - split; [by eapply Hkeys|]. intros ??. by eapply Htargets.
  - split; [apply NoDup_nil_2|]. by intros ?? ?%elem_of_nil.
Qed.

Lemma register_well_formed (key : string) (element : Element)
  (target : option string) (r : Registry) :
  well_formed r → well_formed (register key element target r).
Proof.
  intros Hr. destruct (well_formed_entry key r Hr) as [Hkeys Htargets].
  destruct Hr as (Hr1 & Hr2 & Hr3).
  destruct (register_other_fields key element target r) as (_ & _ & Hl).
  set (em := default [] (requestUpdates r !! key)) in *.
  assert (Hnew : ∀ ts, NoDup ts →
            NoDup (Map_set em element ts).*1
            ∧ ∀ e ts', (e, ts') ∈ Map_set em element ts → NoDup ts').
  { intros ts Hts. split; [by apply Map_set_NoDup|].
    intros e ts' [[= -> ->]|?]%elem_of_Map_set; [done|by eapply Htargets]. }
  assert (Hentry : ∀ em',
            requestUpdates (register key element target r) !! key = Some em' →
            NoDup em'.*1 ∧ ∀ e ts, (e, ts) ∈ em' → NoDup ts).
  { intros em'. rewrite register_requestUpdates, lookup_insert_eq.
    cbv zeta. fold em. intros [= <-].
    destruct (Map_get em element) as [ts|] eqn:Hget.
    - destruct (Array_includes ts _) eqn:Hinc; [done|].
      apply Hnew. unfold Array_push.
      apply bool_decide_eq_false in Hinc.
      apply NoDup_app. split_and!.
      + eapply Htargets. by apply Map_get_Some_elem.
      + by intros x Hx ->%list_elem_of_singleton.
      + apply NoDup_singleton.
    - apply Hnew. apply NoDup_singleton. }
  split_and!.
  - intros k em' Hk. destruct (decide (k = key)) as [->|Hne].
    + by apply Hentry.
    + rewrite register_requestUpdates, lookup_insert_ne in Hk by done.
      by eapply Hr1.
  - intros k em' e ts Hk Hin. destruct (decide (k = key)) as [->|Hne].
    + by eapply (Hentry em').
    + rewrite register_requestUpdates, lookup_insert_ne in Hk by done.
      by eapply Hr2.
  - intros k ls. rewrite Hl. apply Hr3.
Qed.

Lemma unregister_well_formed (key : string) (element : Element)
  (r : Registry) :
  well_formed r → well_formed (unregister key element r).
Proof.
  intros (Hr1 & Hr2 & Hr3).
  destruct (unregister_other_fields key element r) as (_ & _ & Hl).
  split_and!.
  - intros k em'. rewrite unregister_requestUpdates, lookup_alter.
    case_decide; simplify_eq.
    + destruct (requestUpdates r !! k) as [em|] eqn:Hk; [|done].
      intros [= <-]. apply Map_delete_NoDup. exact (Hr1 _ _ Hk).
    + apply Hr1.
  - intros k em' e ts. rewrite unregister_requestUpdates, lookup_alter.
    case_decide; simplify_eq.
    + destruct (requestUpdates r !! k) as [em|] eqn:Hk; [|done].
      intros [= <-] ?%elem_of_Map_delete. by eapply (Hr2 _ _ _ _ Hk).
    + apply Hr2.
  - intros k ls. rewrite Hl. apply Hr3.
Qed.

Lemma unregisterElement_well_formed (element : Element) (r : Registry) :
  well_formed r → well_formed (unregisterElement element r).
Proof.
  intros (Hr1 & Hr2 & Hr3).
  destruct (unregisterElement_other_fields element r) as (_ & _ & Hl).
  split_and!.
  - intros k em'. rewrite unregisterElement_requestUpdates, lookup_fmap.
    destruct (requestUpdates r !! k) as [em|] eqn:Hk; [|done].
    intros [= <-]. apply Map_delete_NoDup. exact (Hr1 _ _ Hk).
  - intros k em' e ts. rewrite unregisterElement_requestUpdates, lookup_fmap.
    destruct (requestUpdates r !! k) as [em|] eqn:Hk; [|done].
    intros [= <-] ?%elem_of_Map_delete. by eapply (Hr2 _ _ _ _ Hk).
  - intros k ls. rewrite Hl. apply Hr3.
Qed.

(** The listeners of a key after [addListener] and [removeListener]. *)
Lemma addListener_listeners (key : string) (listener : Listener)
  (r : Registry) :
  listeners (addListener key listener r)
  = <[key := Set_add (listeners_of key r) listener]> (listeners r).
Proof.
  unfold addListener, listeners_of. cbv zeta.
  destruct (listeners r !! key) as [ls|] eqn:Hr.
  - rewrite bool_decide_eq_true_2 by eauto. by rewrite Hr.
  - rewrite bool_decide_eq_false_2 by (by intros [? ?]). simpl.
    rewrite lookup_insert_eq. simpl. by rewrite insert_insert_eq.
Qed.

Lemma removeListener_listeners (key : string) (listener : Listener)
  (r : Registry) :
  listeners (removeListener key listener r)
  = alter (λ listenerSet, Set_delete listenerSet listener) key (listeners r).
Proof.
  unfold removeListener. apply map_eq. intros k. rewrite lookup_alter.
  destruct (listeners r !! key) as [ls|] eqn:Hr; simpl.
  - destruct (decide (key = k)) as [<-|Hne].
    + by rewrite lookup_insert_eq, ?Hr.
    + by rewrite lookup_insert_ne.
  - destruct (decide (key = k)) as [<-|Hne]; [by rewrite ?Hr|done].
Qed.

Lemma addListener_other_fields (key : string) (listener : Listener)
  (r : Registry) :
  values (addListener key listener r) = values r
  ∧ requestUpdates (addListener key listener r) = requestUpdates r
  ∧ hasChangedFunctions (addListener key listener r) = hasChangedFunctions r.
Proof. unfold addListener. by case_bool_decide. Qed.

Lemma removeListener_other_fields (key : string) (listener : Listener)
  (r : Registry) :
  values (removeListener key listener r) = values r
  ∧ requestUpdates (removeListener key listener r) = requestUpdates r
  ∧ hasChangedFunctions (removeListener key listener r) = hasChangedFunctions r.
Proof. unfold removeListener. by destruct (listeners r !! key). Qed.

Lemma Set_delete_NoDup (s : list Listener) (x : Listener) :
  NoDup s → NoDup (Set_delete s x).
Proof. intros Hs. rewrite Set_delete_filter by done. by apply NoDup_filter. Qed.

Lemma addListener_well_formed (key : string) (listener : Listener)
  (r : Registry) :
  well_formed r → well_formed (addListener key listener r).
Proof.
  intros (Hr1 & Hr2 & Hr3).
  destruct (addListener_other_fields key listener r) as (_ & Hu & _).
  split_and!.
  - intros k em. rewrite Hu. apply Hr1.
  - intros k em e ts. rewrite Hu. apply Hr2.
  - intros k ls. rewrite addListener_listeners.
    intros [[<- <-]|[_ Hk]]%lookup_insert_Some; [|by eapply Hr3].
    apply Set_add_NoDup. unfold listeners_of.
    destruct (listeners r !! key) as [ls|] eqn:Hk; simpl;
      [exact (Hr3 _ _ Hk)|apply NoDup_nil_2].
Qed.

Lemma removeListener_well_formed (key : string) (listener : Listener)
  (r : Registry) :
  well_formed r → well_formed (removeListener key listener r).
Proof.
  intros (Hr1 & Hr2 & Hr3).
  destruct (removeListener_other_fields key listener r) as (_ & Hu & _).
  split_and!.
  - intros k em. rewrite Hu. apply Hr1.
  - intros k em e ts. rewrite Hu. apply Hr2.
  - intros k ls. rewrite removeListener_listeners, lookup_alter.
    case_decide; simplify_eq; [|apply Hr3].
    destruct (listeners r !! k) as [ls0|] eqn:Hk; [|done].
    intros [= <-]. apply Set_delete_NoDup. exact (Hr3 _ _ Hk).
Qed.

Lemma registry_eq (r r' : Registry) :
  values r' = values r →
  requestUpdates r' = requestUpdates r →
  hasChangedFunctions r' = hasChangedFunctions r →
  listeners r' = listeners r →
  r' = r.
Proof. destruct r, r'; simpl. by intros -> -> -> ->. Qed.

(** X1: after [register(key, element, target)] the element's property
    names under the key are its previous ones with the new name appended
    at the end when it was not among them, or the new name alone when the
    element was not subscribed; the lookup of every other key or element
    is what it was. *)
Theorem findRequestUpdate_register (key : string) (element : Element)
  (target : option string) (r : Registry) (key' : string) (element' : Element) :
  findRequestUpdate key' element' (register key element target r)
  = if decide (key' = key ∧ element' = element)
    then Some match findRequestUpdate key element r with
              | Some targets =>
                  if Array_includes targets (target_name key target)
                  then targets
                  else targets ++ [target_name key target]
              | None => [target_name key target]
              end
    else findRequestUpdate key' element' r.
Proof.
  case_decide as Hsame.
  { destruct Hsame as [-> ->]. apply register_targets. }
  unfold findRequestUpdate at 1. rewrite register_requestUpdates.
  destruct (decide (key' = key)) as [->|Hkey].
  - assert (element' ≠ element) as Hne by (by intros ->; apply Hsame).
    rewrite lookup_insert_eq. cbv zeta. unfold findRequestUpdate.
    destruct (requestUpdates r !! key) as [em|]; simpl.
    + destruct (Map_get em element) as [ts|].
      * destruct (Array_includes ts _); [done|]. by rewrite Map_get_set_ne.
      * by rewrite Map_get_set_ne.
    + by rewrite decide_False.
  - by rewrite lookup_insert_ne.
Qed.

(** X2: after [unregister(key, element)] the lookup of that element
    under that key is absent, and the lookup of every other key or
    element is what it was. *)
Theorem findRequestUpdate_unregister (key : string) (element : Element)
  (r : Registry) (key' : string) (element' : Element) :
  well_formed r →
  findRequestUpdate key' element' (unregister key element r)
  = if decide (key' = key ∧ element' = element) then None
    else findRequestUpdate key' element' r.
Proof.
  intros (Hkeys & _ & _). unfold findRequestUpdate.
  rewrite unregister_requestUpdates, lookup_alter.
  destruct (decide (key = key')) as [<-|Hkey].
  - destruct (requestUpdates r !! key) as [em|] eqn:Hem; simpl.
    + rewrite Map_get_delete by exact (Hkeys _ _ Hem).
      destruct (decide (element' = element)) as [->|Hne].
      * by rewrite decide_True.
      * rewrite decide_False; [done|]. by intros [_ ?].
    + by case_decide.
  - rewrite decide_False; [done|]. by intros [-> _].
Qed.

(** X3: after [unregisterElement(element)] the element is subscribed
    under no key at all, and every other element keeps its property
    names under every key. *)
Theorem findRequestUpdate_unregisterElement (element : Element) (r : Registry)
  (key : string) (element' : Element) :
  well_formed r →
  findRequestUpdate key element' (unregisterElement element r)
  = if decide (element' = element) then None
    else findRequestUpdate key element' r.
Proof.
  intros (Hkeys & _ & _). unfold findRequestUpdate.
  rewrite unregisterElement_requestUpdates, lookup_fmap.
  destruct (requestUpdates r !! key) as [em|] eqn:Hem; simpl.
  - by rewrite Map_get_delete by exact (Hkeys _ _ Hem).
  - by case_decide.
Qed.

Lemma unregister_not_subscribed (key : string) (element : Element)
  (r : Registry) :
  findRequestUpdate key element r = None → unregister key element r = r.
Proof.
  intros Hnone.
  destruct (unregister_other_fields key element r) as (Hv & Hf & Hl).
  apply registry_eq; try done.
  rewrite unregister_requestUpdates. apply map_eq. intros k.
  rewrite lookup_alter. case_decide as Hk; [subst k|done].
  unfold findRequestUpdate in Hnone.
  destruct (requestUpdates r !! key) as [em|]; [|done]. simpl.
  by rewrite Map_delete_absent by (by apply Map_get_None).
Qed.

(** X4: [unregister] of an element that is not subscribed under the key
    gives back the registry it was given. *)
Theorem unregister_absent (key : string) (element : Element) (r : Registry) :
  findRequestUpdate key element r = None → unregister key element r = r.
Proof. apply unregister_not_subscribed. Qed.

Lemma listeners_of_add (key : string) (listener : Listener) (r : Registry)
  (key' : string) :
  listeners_of key' (addListener key listener r)
  = if decide (key' = key) then Set_add (listeners_of key r) listener
    else listeners_of key' r.
Proof.
  unfold listeners_of at 1. rewrite addListener_listeners.
  case_decide as Hk; [subst; by rewrite lookup_insert_eq|].
  by rewrite lookup_insert_ne.
Qed.

Lemma listeners_of_remove (key : string) (listener : Listener) (r : Registry)
  (key' : string) :
  listeners_of key' (removeListener key listener r)
  = if decide (key' = key) then Set_delete (listeners_of key r) listener
    else listeners_of key' r.
Proof.
  unfold listeners_of. rewrite removeListener_listeners, lookup_alter.
  destruct (decide (key = key')) as [<-|Hne].
  - rewrite decide_True by done. by destruct (listeners r !! key).
  - by rewrite decide_False.
Qed.

Lemma listeners_of_NoDup (key : string) (r : Registry) :
  well_formed r → NoDup (listeners_of key r).
Proof.
  intros (_ & _ & Hl). unfold listeners_of.
  destruct (listeners r !! key) as [ls|] eqn:Hk; simpl;
    [exact (Hl _ _ Hk)|apply NoDup_nil_2].
Qed.

Lemma removeListener_not_registered (key : string) (listener : Listener)
  (r : Registry) :
  listener ∉ listeners_of key r → removeListener key listener r = r.
Proof.
  intros Hnot.
  destruct (removeListener_other_fields key listener r) as (Hv & Hu & Hf).
  apply registry_eq; try done.
  rewrite removeListener_listeners. apply map_eq. intros k.
  rewrite lookup_alter. case_decide as Hk; [subst k|done].
  unfold listeners_of in Hnot.
  destruct (listeners r !! key) as [ls|]; [|done]. simpl in *.
  by rewrite Set_delete_absent.
Qed.

(** X6: [addListener(key, listener)] puts the listener at the end of the
    key's listeners when it is not among them and changes nothing when it
    is; the listeners of every other key stay as they were. *)
Theorem listeners_of_addListener (key : string) (listener : Listener)
  (r : Registry) (key' : string) :
  listeners_of key' (addListener key listener r)
  = if decide (key' = key)
    then if decide (listener ∈ listeners_of key r) then listeners_of key r
         else listeners_of key r ++ [listener]
    else listeners_of key' r.
Proof.
  rewrite listeners_of_add. case_decide; [|done].
  unfold Set_add, Set_has. by repeat (case_bool_decide || case_decide).
Qed.

(** X7: [removeListener(key, listener)] takes exactly that listener out
    of the key's listeners: the others stay, in their order, and the
    listeners of every other key stay as they were. *)
Theorem listeners_of_removeListener (key : string) (listener : Listener)
  (r : Registry) (key' : string) :
  well_formed r →
  listeners_of key' (removeListener key listener r)
  = if decide (key' = key)
    then filter (λ l, l ≠ listener) (listeners_of key r)
    else listeners_of key' r.
Proof.
  intros Hr. rewrite listeners_of_remove. case_decide; [|done].
  by apply Set_delete_filter, listeners_of_NoDup.
Qed.

(** X8: the closure returned by [addListener] can be called more than
    once: a second [removeListener(key, listener)] gives back the
    registry it was given. *)
Theorem removeListener_twice (key : string) (listener : Listener)
  (r : Registry) :
  well_formed r →
  removeListener key listener (removeListener key listener r)
  = removeListener key listener r.
Proof.
  intros Hr. apply removeListener_not_registered.
  rewrite listeners_of_remove, decide_True by done.
  rewrite Set_delete_filter by by apply listeners_of_NoDup.
  intros [? _]%list_elem_of_filter. done.
Qed.

(** X9: adding a listener that was not registered and calling the
    returned closure leaves every key with the listeners it had. *)
Theorem removeListener_addListener (key : string) (listener : Listener)
  (r : Registry) (key' : string) :
  listener ∉ listeners_of key r →
  listeners_of key' (removeListener key listener (addListener key listener r))
  = listeners_of key' r.
Proof.
  intros Hnot. rewrite listeners_of_remove, !listeners_of_add.
  case_decide as Hk; [subst key'|done].
  rewrite decide_True by done.
  unfold Set_add, Set_has. rewrite bool_decide_eq_false_2 by done.
  induction (listeners_of key r) as [|l ls IH]; simpl.
  - by rewrite decide_True.
  - apply not_elem_of_cons in Hnot as [Hne Hnot].
    rewrite decide_False by done. by rewrite IH.
Qed.

(** ** More on [set] and [requestUpdate] *)




Section Events.
Context {host : Host}.

Lemma elem_of_subscriptions_of (key : string) (r : Registry)
  (element : Element) (target : string) :
  (element, target) ∈ subscriptions_of key r
  ↔ ∃ targets, (element, targets) ∈ default [] (requestUpdates r !! key)
               ∧ target ∈ targets.
Proof.
  unfold subscriptions_of. rewrite list_elem_of_bind. split.
  - intros ([e ts] & Hin & Hem). apply list_elem_of_fmap in Hin as (t & [= -> ->] & Ht).
    by exists ts.
  - intros (ts & Hem & Ht). exists (element, ts). split; [|done].
    apply list_elem_of_fmap. by exists target.
Qed.

Lemma elem_of_update_requests (hint : Value) (l : list (Element * string))
  (element : Element) (target : string) (h : Value) :
  UpdateRequest element target h ∈ update_requests hint l
  ↔ h = hint ∧ (element, target) ∈ l.
Proof.
  unfold update_requests. rewrite list_elem_of_fmap. split.
  - by intros ([e t] & [= -> -> ->] & Hin).
  - intros [-> Hin]. by exists (element, target).
Qed.

Lemma elem_of_listener_calls (value oldValue : Value) (ls : list Listener)
  (listener : Listener) (v o : Value) :
  ListenerCall listener v o ∈ listener_calls value oldValue ls
  ↔ v = value ∧ o = oldValue ∧ listener ∈ ls.
Proof.
  unfold listener_calls. rewrite list_elem_of_fmap. split.
  - by intros (l & [= -> -> ->] & Hin).
  - intros (-> & -> & Hin). by exists listener.
Qed.

Lemma UpdateRequest_not_listener_call (value oldValue : Value)
  (ls : list Listener) (element : Element) (target : string) (h : Value) :
  UpdateRequest element target h ∉ listener_calls value oldValue ls.
Proof. unfold listener_calls. by intros (l & ? & _)%list_elem_of_fmap. Qed.

Lemma ListenerCall_not_update_request (hint : Value)
  (l : list (Element * string)) (listener : Listener) (v o : Value) :
  ListenerCall listener v o ∉ update_requests hint l.
Proof. unfold update_requests. by intros ([e t] & ? & _)%list_elem_of_fmap. Qed.

(** The calls of any [set]. *)
Lemma set_events (key : string) (value : Value) (force : option bool)
  (w : World) (c : Completion unit) (w' : World) :
  set key value force w = (c, w') →
  ∃ called requested,
    log w' = log w ++ listener_calls value (stored key w) called
                   ++ update_requests (hint_of force (stored key w)) requested
    ∧ called `prefix_of` listeners_of key (registry w)
    ∧ requested `prefix_of` subscriptions_of key (registry w).
Proof.
  intros Hset.
  destruct (set_cases key value force w)
    as [[x Hacc]|[(x & _ & _ & Heq)|(exn & x & _ & _ & Heq)]].
  - destruct (set_accepted_log _ _ _ _ _ _ _ Hacc Hset)
      as (_ & called & requested & Hlog & Hpre & Hpre' & _).
    by exists called, requested.
  - rewrite Heq in Hset. injection Hset as <- <-.
    exists [], []. simpl. rewrite app_nil_r.
    split_and!; try done; apply prefix_nil.
  - rewrite Heq in Hset. injection Hset as <- <-.
    exists [], []. simpl. rewrite app_nil_r.
    split_and!; try done; apply prefix_nil.
Qed.

Lemma prefix_elem_of {A : Type} (l1 l2 : list A) (x : A) :
  l1 `prefix_of` l2 → x ∈ l1 → x ∈ l2.
Proof. intros [k ->] ?. apply elem_of_app. by left. Qed.


(** X11: a [set] without the force flag, under the default equality, of
    the value that the key already holds does nothing: it returns with
    the registry as it was and calls nobody.  The same holds when a zero
    of either sign is written over a zero of either sign. *)
Theorem set_same_value (key : string) (value : Value)
  (force : option bool) (w : World) :
  truthy force = false →
  hasChangedFunctions (registry w) !! key = None →
  stored key w = value
  ∨ (∃ s t, value = VNumber (S754_zero s)
            ∧ stored key w = VNumber (S754_zero t)) →
  set key value force w = (Normal (), w).
Proof.
  intros Hforce Hnone Hsame.
  apply set_default_unchanged; [done|done|].
  destruct Hsame as [->|(s & t & -> & ->)].
  - rewrite defaultHasChanged_formula, strict_equals_refl.
    by destruct (is_NaN value).
  - by destruct s, t.
Qed.



(** X13: take a [values] object that still has [Object.prototype] as its
    prototype and a write to a key other than [__proto__] that is forced,
    or accepted by the default equality, and that called no listener and
    no element.  The write returns, and from then on [get] returns the
    written value and ignores the default, also when the written value
    is [undefined], [null] or another falsy value. *)
Theorem get_after_accepted_set (key : string) (value : Value)
  (force : option bool) (w : World) (c : Completion unit)
  (w' : World) (d : option Value) :
  key ≠ "__proto__" →
  prototype (values (registry w)) = Some ObjectPrototypeRef →
  truthy force = true
  ∨ (hasChangedFunctions (registry w) !! key = None
     ∧ defaultHasChanged value (stored key w) = true) →
  set key value force w = (c, w') →
  log w' = log w →
  c = Normal () ∧ get key d w' = value.
Proof.
  intros Hkey _ Hmode Hset Hlog.
  assert (Hacc : accepted key value force w (ext w)).
  { destruct (decide (truthy force = true)) as [Hf|Hf%not_true_is_false].
    { by left. }
    destruct Hmode as [Hf'|[Hnone Hc]]; [congruence|].
    by apply set_default_accepted. }
  destruct (set_accepted_silent _ _ _ _ _ _ _ Hacc Hset Hlog) as (-> & -> & _).
  split; [done|]. unfold get. simpl. by rewrite obj_set_has, obj_set_get.
Qed.

(** X15: an accepted [set] that returns has asked every element
    subscribed under the key to update each of its property names. *)
Theorem subscribed_element_notified (key : string) (value : Value)
  (force : option bool) (w : World) (x : Ext) (w' : World)
  (element : Element) (targets : list string) (target : string) :
  findRequestUpdate key element (registry w) = Some targets →
  target ∈ targets →
  accepted key value force w x →
  set key value force w = (Normal (), w') →
  UpdateRequest element target (hint_of force (stored key w)) ∈ log w'.
Proof.
  intros Hfind Hin Hacc Hset.
  destruct (set_accepted_log _ _ _ _ _ _ _ Hacc Hset)
    as (_ & called & requested & -> & _ & _ & _ & Hall & _).
  destruct Hall as [_ ->]; [done|].
  rewrite !elem_of_app. right. right.
  apply elem_of_update_requests. split; [done|].
  apply elem_of_subscriptions_of. exists targets. split; [|done].
  unfold findRequestUpdate in Hfind.
  destruct (requestUpdates (registry w) !! key) as [em|]; [|done].
  by apply Map_get_Some_elem.
Qed.

(** X16: an element that is not subscribed under the key gets no update
    request from a [set] on that key. *)
Theorem unsubscribed_element_not_notified (key : string) (value : Value)
  (force : option bool) (w : World) (c : Completion unit) (w' : World)
  (element : Element) :
  findRequestUpdate key element (registry w) = None →
  set key value force w = (c, w') →
  ∃ events, log w' = log w ++ events
            ∧ ∀ target h, UpdateRequest element target h ∉ events.
Proof.
  intros Hfind Hset.
  destruct (set_events _ _ _ _ _ _ Hset)
    as (called & requested & -> & _ & Hpre).
  eexists. split; [done|]. intros target h [Hin|Hin]%elem_of_app.
  { by apply UpdateRequest_not_listener_call in Hin. }
  apply elem_of_update_requests in Hin as [_ Hin].
  apply (prefix_elem_of _ _ _ Hpre), elem_of_subscriptions_of in Hin
    as (ts & Hem & _).
  unfold findRequestUpdate in Hfind.
  destruct (requestUpdates (registry w) !! key) as [em|]; simpl in *.
  - apply Map_get_None in Hfind. apply Hfind.
    apply list_elem_of_fmap. by exists (element, ts).
  - by apply elem_of_nil in Hem.
Qed.

(** X17: an accepted [set] that returns has called every listener of
    the key with the new value and the value that was stored; a listener
    that is not among the listeners of the key is not called, however the
    call ends. *)
Theorem listeners_called (key : string) (value : Value)
  (force : option bool) (w : World) (c : Completion unit) (w' : World)
  (listener : Listener) :
  set key value force w = (c, w') →
  (∀ x, accepted key value force w x → c = Normal () →
        listener ∈ listeners_of key (registry w) →
        ListenerCall listener value (stored key w) ∈ log w')
  ∧ (listener ∉ listeners_of key (registry w) →
     ∃ events, log w' = log w ++ events
               ∧ ∀ v o, ListenerCall listener v o ∉ events).
Proof.
  intros Hset. split.
  - intros x Hacc -> Hin.
    destruct (set_accepted_log _ _ _ _ _ _ _ Hacc Hset)
      as (_ & called & requested & -> & _ & _ & _ & Hall & _).
    destruct Hall as [-> _]; [done|].
    rewrite !elem_of_app. right. left. by apply elem_of_listener_calls.
  - intros Hnot.
    destruct (set_events _ _ _ _ _ _ Hset)
      as (called & requested & -> & Hpre & _).
    eexists. split; [done|]. intros v o [Hin|Hin]%elem_of_app.
    + apply elem_of_listener_calls in Hin as (_ & _ & Hin).
      by apply Hnot, (prefix_elem_of _ _ _ Hpre).
    + by apply ListenerCall_not_update_request in Hin.
Qed.

End Events.

Section MoreEffects.
Context {host : Host}.

Lemma requestUpdate_run (key : string) (oldValue : Value)
  (force : option bool) (w : World) :
  requestUpdate key oldValue force w
  = let '(c, x, requested) :=
      run_calls (λ '(element, target),
                   element_requestUpdate element target
                     (hint_of force oldValue))
                (subscriptions_of key (registry w)) (ext w) in
    (c, {| registry := registry w; ext := x;
           log := log w ++ update_requests (hint_of force oldValue) requested |}).
Proof.
  unfold requestUpdate, mbind, M_bind, read, subscriptions_of. simpl.
  destruct (requestUpdates (registry w) !! key) as [em|]; simpl.
  - rewrite for_each_nested.
    rewrite (for_each_ext _
      (λ p, call [(λ '(e, t), UpdateRequest e t (hint_of force oldValue)) p]
                 ((λ '(e, t), element_requestUpdate e t
                                (hint_of force oldValue)) p)));
      [|by intros [e t] w'].
    by rewrite for_each_call.
  - rewrite app_nil_r. by destruct w.
Qed.

(** X18: [requestUpdate(key, oldValue, force)] asks the elements
    subscribed under the key, in the order of their subscription, to
    update each of their property names in turn, passing [undefined]
    when [force] is set and [oldValue] otherwise.  When every request
    returns, it returns after the last one.  It stops at the first
    request that throws: it ends with that exception, and the requests
    after it are not made.  For a key without subscriptions it does
    nothing at all. *)
Theorem requestUpdate_requests (key : string) (oldValue : Value)
  (force : option bool) (w : World) :
  (∀ x1,
     run_calls (λ '(element, target),
                  element_requestUpdate element target
                    (if truthy force then VUndefined else oldValue))
               (subscriptions_of key (registry w)) (ext w)
     = (Normal (), x1, subscriptions_of key (registry w)) →
     ∃ w', requestUpdate key oldValue force w = (Normal (), w')
           ∧ log w' = log w ++ update_requests
                                 (if truthy force then VUndefined else oldValue)
                                 (subscriptions_of key (registry w))
           ∧ ext w' = x1)
  ∧ (∀ before element target after x1 exn x2,
       subscriptions_of key (registry w)
       = before ++ (element, target) :: after →
       run_calls (λ '(element, target),
                    element_requestUpdate element target
                      (if truthy force then VUndefined else oldValue))
                 before (ext w)
       = (Normal (), x1, before) →
       element_requestUpdate element target
         (if truthy force then VUndefined else oldValue) x1
       = (Throw exn, x2) →
       ∃ w', requestUpdate key oldValue force w = (Throw exn, w')
             ∧ log w' = log w ++ update_requests
                                   (if truthy force then VUndefined
                                    else oldValue)
                                   (before ++ [(element, target)])
             ∧ ext w' = x2)
  ∧ (∀ c w',
       requestUpdate key oldValue force w = (c, w') →
       ∃ requested,
         log w' = log w ++ update_requests
                             (if truthy force then VUndefined else oldValue)
                             requested
         ∧ requested `prefix_of` subscriptions_of key (registry w)
         ∧ (c = Normal () → requested = subscriptions_of key (registry w)))
  ∧ (subscriptions_of key (registry w) = [] →
     requestUpdate key oldValue force w = (Normal (), w)).
Proof.
  rewrite requestUpdate_run. fold (hint_of force oldValue).
  set (body := λ '(element, target), element_requestUpdate element target _).
  split_and!.
  - intros x1 ->. eexists. split_and!; done.
  - intros before element target after x1 exn x2 -> Hbefore Hthrow.
    rewrite (run_calls_throw body _ _ (element, target) _ _ _ _
               Hbefore Hthrow).
    eexists. split_and!; done.
  - intros c w'.
    pose proof (run_calls_prefix body (subscriptions_of key (registry w))
                  (ext w)) as Hpre.
    destruct (run_calls body _ (ext w)) as [[c0 x] requested] eqn:Hrun.
    simpl in Hpre. intros [= <- <-]. simpl.
    exists requested. split_and!; try done.
    intros ->. by apply run_calls_normal in Hrun.
  - intros ->. simpl. rewrite app_nil_r. by destruct w.
Qed.

(** X19: a custom equality function registered for the key decides
    alone: a falsy result makes [set] return with the registry and the
    log as they were, also when the value differs from the stored one; a
    truthy result makes [set] go on to notify, also when the value is the
    stored one, so that every listener and every element of the key has
    been called, with the stored value as the old one, when the call
    returns. *)
Theorem custom_equality_decides (key : string) (value : Value) (w : World)
  (f : HasChanged) (result : Value) (x : Ext) (c : Completion unit)
  (w' : World) :
  hasChangedFunctions (registry w) !! key = Some f →
  hasChanged_body f value (stored key w) (ext w) = (Normal result, x) →
  set key value None w = (c, w') →
  if ToBoolean result
  then ∃ called requested,
         log w' = log w ++ listener_calls value (stored key w) called
                        ++ update_requests (stored key w) requested
         ∧ called `prefix_of` listeners_of key (registry w)
         ∧ requested `prefix_of` subscriptions_of key (registry w)
         ∧ (c = Normal () →
            called = listeners_of key (registry w)
            ∧ requested = subscriptions_of key (registry w))
  else c = Normal () ∧ w' = with_ext x w.
Proof.
  intros Hf Hbody Hset.
  pose proof (custom_equality_returns key value w f result x Hf Hbody) as Hrep.
  destruct (ToBoolean result) eqn:Hres.
  - assert (Hacc : accepted key value None w x) by (by right).
    destruct (set_accepted_log _ _ _ _ _ _ _ Hacc Hset)
      as (_ & called & requested & Hlog & Hpre & Hpre' & _ & Hall & _).
    by exists called, requested.
  - rewrite (set_unchanged key value None w x) in Hset by done.
    by injection Hset as <- <-.
Qed.

(** X21: a write through the accessor of a property decorated with a
    [hasChanged] option is decided by that function: when it returns a
    falsy result the write stores nothing and notifies nobody. *)
Theorem decorated_write_uses_custom_equality (declared_key : option string)
  (f : HasChanged) (key : string) (r : Registry) (x0 : Ext)
  (events : list Event) (value : Value) (result : Value) (x : Ext) :
  let options := Some {| decl_key := declared_key; decl_hasChanged := Some f |} in
  let w := {| registry := share options key r; ext := x0; log := events |} in
  hasChanged_body f value (stored (shareKey options key) w) x0
  = (Normal result, x) →
  ToBoolean result = false →
  property_set options key value w = (Normal (), with_ext x w).
Proof.
  intros options w Hbody Hres. unfold property_set.
  apply set_unchanged; [done|]. rewrite <- Hres.
  apply (custom_equality_returns _ _ w f); [|done].
  subst w options. unfold share, setHasChanged. simpl.
  by rewrite lookup_insert_eq.
Qed.

Lemma get_register (key key' : string) (element : Element)
  (target : option string) (d : option Value) (r : Registry) (x : Ext)
  (events events' : list Event) :
  get key' d {| registry := register key element target r; ext := x;
                log := events |}
  = get key' d {| registry := r; ext := x; log := events' |}.
Proof.
  unfold get. simpl.
  by destruct (register_other_fields key element target r) as (-> & _ & _).
Qed.

(** The read accessor as one step. *)
Lemma property_get_run (options : option ShareDeclaration) (key : string)
  (this : Element) (w : World) :
  property_get options key this w
  = (Normal (get (shareKey options key) None w),
     {| registry := register (shareKey options key) this None (registry w);
        ext := ext w; log := log w |}).
Proof.
  unfold property_get, mbind, M_bind, update. simpl.
  f_equal. f_equal. destruct w as [r x l]. apply get_register.
Qed.

(** X22: reading a decorated property returns [get] of the share key
    and subscribes the reading element under the share key, with the
    share key itself as the property name to update, also when the
    property has another name.  The read calls no listener and no
    element, and leaves the values as they were. *)
Theorem property_get_subscribes (options : option ShareDeclaration)
  (key : string) (this : Element) (w : World) :
  ∃ w', property_get options key this w
        = (Normal (get (shareKey options key) None w), w')
        ∧ registry w' = register (shareKey options key) this None (registry w)
        ∧ ext w' = ext w ∧ log w' = log w
        ∧ (∃ targets,
             findRequestUpdate (shareKey options key) this (registry w')
             = Some targets
             ∧ shareKey options key ∈ targets)
        ∧ (∀ key' d, get key' d w' = get key' d w).
Proof.
  unfold property_get, mbind, M_bind, update. simpl.
  exists {| registry := register (shareKey options key) this None (registry w);
            ext := ext w; log := log w |}.
  split_and!; try done.
  - f_equal. f_equal. destruct w as [r x l]. apply get_register.
  - simpl. destruct (register_subscribed (shareKey options key) this None
                       (registry w)) as (em & ts & Hem & Hget & Hin).
    exists ts. unfold findRequestUpdate. by rewrite Hem.
  - intros key' d. destruct w as [r x l]. apply get_register.
Qed.

(** X23: an element that has read a decorated property is asked to
    update the share key whenever a later write through an accessor of
    the same share key is accepted and returns. *)
Theorem read_then_write_notifies (options options' : option ShareDeclaration)
  (key key' : string) (this : Element) (w : World) (cg : Completion Value)
  (w1 : World) (value : Value) (x : Ext) (w2 : World) :
  shareKey options' key' = shareKey options key →
  property_get options key this w = (cg, w1) →
  accepted (shareKey options key) value None w1 x →
  property_set options' key' value w1 = (Normal (), w2) →
  UpdateRequest this (shareKey options key) (stored (shareKey options key) w1)
    ∈ log w2.
Proof.
  intros Hkey Hget Hacc Hset. unfold property_set in Hset. rewrite Hkey in Hset.
  rewrite property_get_run in Hget. injection Hget as _ <-.
  destruct (register_subscribed (shareKey options key) this None (registry w))
    as (em0 & ts & Hem0 & Hget0 & Hin).
  assert (Hfind : findRequestUpdate (shareKey options key) this
                    (register (shareKey options key) this None (registry w))
                  = Some ts).
  { unfold findRequestUpdate. by rewrite Hem0. }
  destruct (set_accepted_log _ _ _ _ _ _ _ Hacc Hset)
    as (_ & called & requested & -> & _ & _ & _ & Hall & _).
  destruct Hall as [_ ->]; [done|].
  rewrite !elem_of_app. right. right.
  apply elem_of_update_requests. split; [done|].
  apply elem_of_subscriptions_of. exists ts. split; [|done].
  simpl. unfold findRequestUpdate in Hfind.
  destruct (requestUpdates
              (register (shareKey options key) this None (registry w))
              !! shareKey options key) as [em|]; [|done].
  by apply Map_get_Some_elem.
Qed.

(** X24: take a [values] object that still has [Object.prototype] as
    its prototype and a write through an accessor, accepted by the
    default equality, that called no listener and no element.  The write
    returns, and a read through any accessor of the same share key, on
    any element, then returns the written value. *)
Theorem write_then_read (options options' : option ShareDeclaration)
  (key key' : string) (this : Element) (w : World) (value : Value)
  (c : Completion unit) (w1 : World) :
  shareKey options key ≠ "__proto__" →
  shareKey options' key' = shareKey options key →
  prototype (values (registry w)) = Some ObjectPrototypeRef →
  hasChangedFunctions (registry w) !! shareKey options key = None →
  defaultHasChanged value (stored (shareKey options key) w) = true →
  property_set options key value w = (c, w1) →
  log w1 = log w →
  c = Normal () ∧ (property_get options' key' this w1).1 = Normal value.
Proof.
  intros Hproto Hkey _ Hnone Hc Hset Hlog. unfold property_set in Hset.
  assert (Hacc : accepted (shareKey options key) value None w (ext w))
    by (by apply set_default_accepted).
  destruct (set_accepted_silent _ _ _ _ _ _ _ Hacc Hset Hlog) as (-> & -> & _).
  split; [done|].
  rewrite property_get_run. simpl. f_equal. rewrite Hkey.
  unfold get. simpl. by rewrite obj_set_has, obj_set_get.
Qed.

(** X5: every [Map] of elements holds an element once, every array of
    property names holds a name once, and every set of listeners holds a
    listener once, on the initial registry and after every operation:
    [register], [unregister], [unregisterElement], [addListener],
    [removeListener], the decorator, [set] and a read through a
    decorated property. *)
Theorem well_formed_invariant (r : Registry) :
  well_formed r →
  (∀ key element target, well_formed (register key element target r))
  ∧ (∀ key element, well_formed (unregister key element r))
  ∧ (∀ element, well_formed (unregisterElement element r))
  ∧ (∀ key listener, well_formed (addListener key listener r))
  ∧ (∀ key listener, well_formed (removeListener key listener r))
  ∧ (∀ options key, well_formed (share options key r))
  ∧ (∀ key value force x events,
       well_formed
         (registry (set key value force
                      {| registry := r; ext := x; log := events |}).2))
  ∧ (∀ options key this x events,
       well_formed
         (registry (property_get options key this
                      {| registry := r; ext := x; log := events |}).2)).
Proof.
  intros Hr. split_and!.
  - intros. by apply register_well_formed.
  - intros. by apply unregister_well_formed.
  - intros. by apply unregisterElement_well_formed.
  - intros. by apply addListener_well_formed.
  - intros. by apply removeListener_well_formed.
  - intros options key. eapply well_formed_ext; [| |done];
      unfold share; by destruct (options ≫= decl_hasChanged).
  - intros key value force x events.
    destruct (set key value force _) as [c w'] eqn:Hset.
    destruct (set_registry_frame _ _ _ _ _ _ Hset) as (Hreq & _ & Hl).
    by eapply well_formed_ext.
  - intros options key this x events.
    destruct (property_get_subscribes options key this
                {| registry := r; ext := x; log := events |})
      as (w' & -> & Hreg & _). simpl. rewrite Hreg.
    by apply register_well_formed.
Qed.

End MoreEffects.

(** X20: the default equality reports no change exactly when the two
    values are the same value (two objects: the same object; [NaN] and
    [NaN]) or are two zeros of any sign. *)
Theorem defaultHasChanged_false_iff (value oldValue : Value) :
  defaultHasChanged value oldValue = false
  ↔ value = oldValue
    ∨ ∃ s t, value = VNumber (S754_zero s) ∧ oldValue = VNumber (S754_zero t).
Proof.
  split.
  - intros [Heq|[Hv Ho]]%defaultHasChanged_false.
    + by apply strict_equals_true.
    + left. apply is_NaN_true in Hv, Ho. congruence.
  - intros [->|(s & t & -> & ->)].
    + rewrite defaultHasChanged_formula, strict_equals_refl.
      by destruct (is_NaN oldValue).
    + reflexivity.
Qed.

(** ** The further properties on the concrete host *)

Lemma demo_registry_well_formed : well_formed demo_registry.
Proof.
  unfold demo_registry.
  repeat apply addListener_well_formed.
  repeat apply register_well_formed.
  apply well_formed_initial.
Qed.

(** Component 7 unsubscribes from [count]; component 8 stays. *)
Lemma findRequestUpdate_unregister_witness :
  findRequestUpdate "count" (ElementId 8)
    (unregister "count" (ElementId 7) demo_registry)
  = if decide ("count" = "count" ∧ ElementId 8 = ElementId 7) then None
    else findRequestUpdate "count" (ElementId 8) demo_registry.
Proof.
  apply (findRequestUpdate_unregister "count" (ElementId 7) demo_registry
           "count" (ElementId 8)).
  apply demo_registry_well_formed.
Defined.

(** Component 7 is torn down. *)
Lemma findRequestUpdate_unregisterElement_witness :
  findRequestUpdate "count" (ElementId 7)
    (unregisterElement (ElementId 7) demo_registry)
  = if decide (ElementId 7 = ElementId 7) then None
    else findRequestUpdate "count" (ElementId 7) demo_registry.
Proof.
  apply (findRequestUpdate_unregisterElement (ElementId 7) demo_registry
           "count" (ElementId 7)).
  apply demo_registry_well_formed.
Defined.

(** Component 9 never read [count]. *)
Lemma unregister_absent_witness :
  unregister "count" (ElementId 9) demo_registry = demo_registry.
Proof.
  apply (unregister_absent "count" (ElementId 9) demo_registry).
  vm_compute. reflexivity.
Defined.

(** The invariant on the registry of the scenario. *)
Lemma well_formed_invariant_witness :
  (∀ key element target,
     well_formed (register key element target demo_registry))
  ∧ (∀ key element, well_formed (unregister key element demo_registry))
  ∧ (∀ element, well_formed (unregisterElement element demo_registry))
  ∧ (∀ key listener, well_formed (addListener key listener demo_registry))
  ∧ (∀ key listener, well_formed (removeListener key listener demo_registry))
  ∧ (∀ options key, well_formed (share options key demo_registry))
  ∧ (∀ key value force x events,
       well_formed
         (registry (set key value force
                      (@mkWorld demo_host demo_registry x events)).2))
  ∧ (∀ options key this x events,
       well_formed
         (registry (property_get options key this
                      (@mkWorld demo_host demo_registry x events)).2)).
Proof.
  apply (@well_formed_invariant demo_host demo_registry).
  apply demo_registry_well_formed.
Defined.

(** Listener 1 is removed from [count]; listener 2 stays. *)
Lemma listeners_of_removeListener_witness :
  listeners_of "count" (removeListener "count" (ListenerId 1) demo_registry)
  = if decide ("count" = "count")
    then filter (λ l, l ≠ ListenerId 1) (listeners_of "count" demo_registry)
    else listeners_of "count" demo_registry.
Proof.
  apply (listeners_of_removeListener "count" (ListenerId 1) demo_registry
           "count").
  apply demo_registry_well_formed.
Defined.

(** Listener 1 is removed twice. *)
Lemma removeListener_twice_witness :
  removeListener "count" (ListenerId 1)
    (removeListener "count" (ListenerId 1) demo_registry)
  = removeListener "count" (ListenerId 1) demo_registry.
Proof.
  apply (removeListener_twice "count" (ListenerId 1) demo_registry).
  apply demo_registry_well_formed.
Defined.

(** Listener 5 is added to [count] and removed again. *)
Lemma removeListener_addListener_witness :
  listeners_of "count"
    (removeListener "count" (ListenerId 5)
       (addListener "count" (ListenerId 5) demo_registry))
  = listeners_of "count" demo_registry.
Proof.
  apply (removeListener_addListener "count" (ListenerId 5) demo_registry
           "count").
  apply (bool_decide_eq_false_1
           (ListenerId 5 ∈ listeners_of "count" demo_registry)).
  vm_compute. reflexivity.
Defined.


(** [NaN] is written to [count] twice: the second write does nothing. *)
Lemma set_same_value_witness :
  set "count" NaN None (set "count" NaN None (demo_world demo_registry)).2
  = (Normal (), (set "count" NaN None (demo_world demo_registry)).2).
Proof.
  apply (@set_same_value demo_host "count" NaN None
           (set "count" NaN None (demo_world demo_registry)).2).
  - reflexivity.
  - vm_compute. reflexivity.
  - left. vm_compute. reflexivity.
Defined.


(** A forced write of [undefined] to [theme]: the default 1 is not
    returned. *)
Lemma get_after_accepted_set_witness :
  (set "theme" VUndefined (Some true) (demo_world demo_registry)).1 = Normal ()
  ∧ get "theme" (Some one)
      (set "theme" VUndefined (Some true) (demo_world demo_registry)).2
    = VUndefined.
Proof.
  apply (@get_after_accepted_set demo_host "theme" VUndefined (Some true)
           (demo_world demo_registry)
           (set "theme" VUndefined (Some true) (demo_world demo_registry)).1
           (set "theme" VUndefined (Some true) (demo_world demo_registry)).2
           (Some one)).
  - done.
  - reflexivity.
  - left. reflexivity.
  - vm_compute. reflexivity.
  - vm_compute. reflexivity.
Defined.

(** Component 7 is asked to update [total]. *)
Lemma subscribed_element_notified_witness :
  UpdateRequest (ElementId 7) "total" VUndefined
    ∈ log (set "count" one None (demo_world demo_registry)).2.
Proof.
  apply (@subscribed_element_notified demo_host "count" one None
           (demo_world demo_registry) 0%nat
           (set "count" one None (demo_world demo_registry)).2
           (ElementId 7) ["count"; "total"] "total").
  - vm_compute. reflexivity.
  - apply elem_of_cons. right. apply elem_of_cons. by left.
  - right. split; [done|].
    apply (@default_equality demo_host "count" one (demo_world demo_registry)).
    reflexivity.
  - vm_compute. reflexivity.
Defined.

(** Component 9 is not asked anything. *)
Lemma unsubscribed_element_not_notified_witness :
  ∃ events,
    log (set "count" one None (demo_world demo_registry)).2 = [] ++ events
    ∧ ∀ target h, UpdateRequest (ElementId 9) target h ∉ events.
Proof.
  apply (@unsubscribed_element_not_notified demo_host "count" one None
           (demo_world demo_registry) (Normal ())
           (set "count" one None (demo_world demo_registry)).2 (ElementId 9)).
  - vm_compute. reflexivity.
  - vm_compute. reflexivity.
Defined.

(** Listener 1 is called, listener 5 is not. *)
Lemma listeners_called_witness :
  (∀ x, accepted "count" one None (demo_world demo_registry) x →
        Normal () = Normal () →
        ListenerId 1 ∈ listeners_of "count" demo_registry →
        ListenerCall (ListenerId 1) one VUndefined
          ∈ log (set "count" one None (demo_world demo_registry)).2)
  ∧ (ListenerId 1 ∉ listeners_of "count" demo_registry →
     ∃ events,
       log (set "count" one None (demo_world demo_registry)).2 = [] ++ events
       ∧ ∀ v o, ListenerCall (ListenerId 1) v o ∉ events).
Proof.
  apply (@listeners_called demo_host "count" one None
           (demo_world demo_registry) (Normal ())
           (set "count" one None (demo_world demo_registry)).2 (ListenerId 1)).
  vm_compute. reflexivity.
Defined.

(** On the second host, component 9 subscribes after components 8 and
    7: [requestUpdate("count", null)] ends with the exception of
    component 7 after three requests, and component 9 is not asked. *)
Lemma requestUpdate_requests_witness :
  ∃ w', requestUpdate "count" VNull None
          (@mkWorld failing_host
             (register "count" (ElementId 9) None demo_registry) 0%nat [])
        = (Throw (VString "update failed"), w')
        ∧ log w' = [] ++ update_requests VNull
                           ([(ElementId 8, "count"); (ElementId 7, "count")]
                            ++ [(ElementId 7, "total")])
        ∧ ext w' = 3%nat.
Proof.
  apply (proj1 (proj2 (@requestUpdate_requests failing_host "count" VNull None
                         (@mkWorld failing_host
                            (register "count" (ElementId 9) None demo_registry)
                            0%nat [])))
           [(ElementId 8, "count"); (ElementId 7, "count")]
           (ElementId 7) "total" [(ElementId 9, "count")]
           2%nat (VString "update failed") 3%nat).
  - vm_compute. reflexivity.
  - reflexivity.
  - reflexivity.
Defined.

(** Equality function 0 never reports a change: a write of 1 to [count]
    does nothing.  Equality function 2 always reports one: a write of 1
    over 1 notifies the two listeners and the three subscriptions. *)
Lemma custom_equality_decides_witness :
  ((set "count" one None
      (demo_world (setHasChanged "count" (HasChangedId 0) demo_registry))).1
   = Normal ()
   ∧ (set "count" one None
        (demo_world (setHasChanged "count" (HasChangedId 0) demo_registry))).2
     = @with_ext demo_host 1%nat
         (demo_world (setHasChanged "count" (HasChangedId 0) demo_registry)))
  ∧ (∃ called requested,
       log (set "count" one None
              (demo_world
                 (setHasChanged "count" (HasChangedId 2)
                    (registry
                       (set "count" one None (demo_world demo_registry)).2)))).2
       = [] ++ listener_calls one one called ++ update_requests one requested
       ∧ called `prefix_of` [ListenerId 1; ListenerId 2]
       ∧ requested `prefix_of` [(ElementId 8, "count"); (ElementId 7, "count");
                               (ElementId 7, "total")]
       ∧ (Normal () = Normal () →
          called = [ListenerId 1; ListenerId 2]
          ∧ requested = [(ElementId 8, "count"); (ElementId 7, "count");
                         (ElementId 7, "total")])).
Proof.
  split.
  - apply (@custom_equality_decides demo_host "count" one
             (demo_world (setHasChanged "count" (HasChangedId 0) demo_registry))
             (HasChangedId 0) (VBoolean false) 1%nat
             (set "count" one None
                (demo_world
                   (setHasChanged "count" (HasChangedId 0) demo_registry))).1
             (set "count" one None
                (demo_world
                   (setHasChanged "count" (HasChangedId 0) demo_registry))).2).
    + reflexivity.
    + reflexivity.
    + vm_compute. reflexivity.
  - apply (@custom_equality_decides demo_host "count" one
             (demo_world
                (setHasChanged "count" (HasChangedId 2)
                   (registry
                      (set "count" one None (demo_world demo_registry)).2)))
             (HasChangedId 2) (VBoolean true) 1%nat (Normal ())
             (set "count" one None
                (demo_world
                   (setHasChanged "count" (HasChangedId 2)
                      (registry
                         (set "count" one None
                            (demo_world demo_registry)).2)))).2).
    + vm_compute. reflexivity.
    + vm_compute. reflexivity.
    + vm_compute. reflexivity.
Defined.

(** The property [data] is decorated with the key [appData] and equality
    function 0. *)
Lemma decorated_write_uses_custom_equality_witness :
  property_set
    (Some {| decl_key := Some "appData"; decl_hasChanged := Some (HasChangedId 0) |})
    "data" one
    (@mkWorld demo_host
       (share (Some {| decl_key := Some "appData";
                       decl_hasChanged := Some (HasChangedId 0) |})
          "data" demo_registry) 0%nat [])
  = (Normal (),
     @with_ext demo_host 1%nat
       (@mkWorld demo_host
          (share (Some {| decl_key := Some "appData";
                          decl_hasChanged := Some (HasChangedId 0) |})
             "data" demo_registry) 0%nat [])).
Proof.
  apply (@decorated_write_uses_custom_equality demo_host (Some "appData")
           (HasChangedId 0) "data" demo_registry 0%nat [] one
           (VBoolean false) 1%nat);
    reflexivity.
Defined.

(** Component 9 reads the property [user], decorated with the key
    [currentUser]; then [currentUser] is written through the property
    [currentUser] of another class. *)
Lemma read_then_write_notifies_witness :
  UpdateRequest (ElementId 9) "currentUser" VUndefined
    ∈ log (property_set None "currentUser" one
             (property_get
                (Some {| decl_key := Some "currentUser";
                         decl_hasChanged := None |})
                "user" (ElementId 9) (demo_world demo_registry)).2).2.
Proof.
  apply (@read_then_write_notifies demo_host
           (Some {| decl_key := Some "currentUser"; decl_hasChanged := None |})
           None "user" "currentUser" (ElementId 9) (demo_world demo_registry)
           (Normal VUndefined)
           (property_get
              (Some {| decl_key := Some "currentUser";
                       decl_hasChanged := None |})
              "user" (ElementId 9) (demo_world demo_registry)).2
           one 0%nat).
  - reflexivity.
  - vm_compute. reflexivity.
  - right. split; [done|].
    apply (@default_equality demo_host "currentUser" one
             (property_get
                (Some {| decl_key := Some "currentUser";
                         decl_hasChanged := None |})
                "user" (ElementId 9) (demo_world demo_registry)).2).
    reflexivity.
  - vm_compute. reflexivity.
Defined.

(** 1 is written through the property [theme] and read by component
    9. *)
Lemma write_then_read_witness :
  (property_set None "theme" one (demo_world demo_registry)).1 = Normal ()
  ∧ (property_get None "theme" (ElementId 9)
       (property_set None "theme" one (demo_world demo_registry)).2).1
    = Normal one.
Proof.
  apply (@write_then_read demo_host None None "theme" "theme" (ElementId 9)
           (demo_world demo_registry) one
           (property_set None "theme" one (demo_world demo_registry)).1
           (property_set None "theme" one (demo_world demo_registry)).2).
  - done.
  - reflexivity.
  - reflexivity.
  - reflexivity.
  - reflexivity.
  - vm_compute. reflexivity.
  - vm_compute. reflexivity.
Defined.
